(** * RoadCLI: the command tree, the parser and the dispatch loop of
    [src/roadcli/cli.py], embedded as Rocq functions.

    Conventions of the embedding.
    - A Python [str] is a [string]; one [ascii] stands for one character,
      so that the strings are those of characters below 256.
    - A Python [dict] keyed by strings whose order is never observed
      ([Context.options], [Context.arguments], [collected_args]) is a
      [gmap string _]; a [dict] that is iterated in insertion order
      ([Command.subcommands], scanned by [_find_command_for_handler]) is an
      association list with unique keys.
    - A function that can raise returns a [result]: [Ok v] or [Raise e].
    - The [while i < len(args)] loop of [Parser.parse] is a structural
      recursion on the tokens that are still to be read, [args[i:]]. *)

From Stdlib Require Import String Ascii List ZArith Bool Lia.
From stdpp Require Import base option list strings gmap fin_maps.

Import ListNotations.
Set Warnings "-register-all".
Local Open Scope string_scope.
Local Open Scope list_scope.

(** ** Python values, exceptions and string primitives *)

(** The objects that end up in a [Context] or in a descriptor: option
    defaults, converted tokens, the lists built for variadic arguments, and
    [VObject] for any other object (a function, a class, a module), known
    by a name only. *)
Inductive value : Type :=
| VNone
| VBool (b : bool)
| VInt (z : Z)
| VStr (s : string)
| VList (l : list value)
| VObject (id : string).

(** Exceptions: the instances of [Exception], which are what the clause
    [except Exception] of [CLI.run] catches.  ([SystemExit] and
    [KeyboardInterrupt] are no instances of [Exception]; a handler or a
    hook that exits or is interrupted is outside this development.)
    [ValueError tname token] is the [ValueError] that the call
    [tname(token)] of [int] or [float] raises: its message is built from
    the type and the literal (for a malformed literal it quotes both) and
    from nothing else.  [NameError n] is a failed lookup of the free name
    [n].  [OtherError cls msg] is an instance of any other class. *)
Inductive exn : Type :=
| ValueError (tname : string) (token : string)
| NameError (name : string)
| RuntimeError (msg : string)
| OtherError (cls : string) (msg : string).

Inductive result (A : Type) : Type :=
| Ok (a : A)
| Raise (e : exn).
Arguments Ok {A} a.
Arguments Raise {A} e.

Definition bind {A B : Type} (r : result A) (k : A -> result B) : result B :=
  match r with
  | Ok a => k a
  | Raise e => Raise e
  end.

Notation "'try!' x ':=' r 'in' k" := (bind r (fun x => k))
  (at level 10, x name, r at level 100, k at level 200).

Module Str.

(** [s.startswith(p)] *)
Fixpoint startswith (p s : string) : bool :=
  match p with
  | EmptyString => true
  | String a p' =>
      match s with
      | EmptyString => false
      | String b s' => Ascii.eqb a b && startswith p' s'
      end
  end.

(** [s[n:]] *)
Fixpoint drop (n : nat) (s : string) : string :=
  match n, s with
  | O, _ => s
  | S _, EmptyString => EmptyString
  | S n', String _ s' => drop n' s'
  end.

(** [s.split(c, 1)] when [c in s]: the text before the first [c] and the
    text after it; [None] when [c] does not occur in [s]. *)
Fixpoint split_first (c : ascii) (s : string) : option (string * string) :=
  match s with
  | EmptyString => None
  | String a s' =>
      if Ascii.eqb a c then Some (EmptyString, s')
      else match split_first c s' with
           | Some (k, v) => Some (String a k, v)
           | None => None
           end
  end.

(** [c in s] *)
Definition contains (c : ascii) (s : string) : bool :=
  match split_first c s with Some _ => true | None => false end.

(** The lower-case letter of an upper-case one, among the characters below
    256: A-Z, and the accented capitals 192-222 but for the sign 215. *)
Definition lower_char (a : ascii) : ascii :=
  let n := nat_of_ascii a in
  if ((65 <=? n)%nat && (n <=? 90)%nat)
     || ((192 <=? n)%nat && (n <=? 222)%nat && negb (n =? 215)%nat)
  then ascii_of_nat (n + 32) else a.

(** [s.lower()] *)
Fixpoint lower (s : string) : string :=
  match s with
  | EmptyString => EmptyString
  | String a s' => String (lower_char a) (lower s')
  end.

(** [s[i]], a string of one character (empty when [i] is out of range,
    where Python raises; [Parser.parse] only reads [arg[1]] of a string
    of length 2) *)
Definition item (i : nat) (s : string) : string := String.substring i 1 s.

(** [x in (s1, ..., sn)] *)
Definition mem (x : string) (l : list string) : bool :=
  existsb (String.eqb x) l.

End Str.

(** ** Types of options and arguments

    The [type] field holds a callable.  [_convert] singles out [bool] by
    identity and otherwise calls the type on the token: [TCall tname call]
    is the callable named [tname], which on a token returns a value or
    raises an exception of its own choice. *)
Inductive PyType : Type :=
| TBool
| TCall (tname : string) (call : string -> result value).

(** The callables that fail in one way only, with the [ValueError] of
    the type on the token, as [int] and [float] do on a literal: [None]
    is the call that raises. *)
Definition TCallable (tname : string) (call : string -> option value) : PyType :=
  TCall tname (fun s => match call s with
                        | Some v => Ok v
                        | None => Raise (ValueError tname s)
                        end).

(** [str]: the token itself, never an error. *)
Definition py_str : PyType := TCallable "str" (fun s => Some (VStr s)).

Module Int.

Definition digit (a : ascii) : option Z :=
  let n := nat_of_ascii a in
  if (48 <=? n)%nat && (n <=? 57)%nat then Some (Z.of_nat (n - 48)) else None.

(** The blanks that [int()] drops around a literal, among the characters
    below 256: tab to carriage return, the space, and the two blanks
    above 127 (next line, no-break space).  The separators 28 to 31 are
    blanks for [str.isspace] but not for [int()], which rejects them. *)
Definition is_space (a : ascii) : bool :=
  let n := nat_of_ascii a in
  ((9 <=? n)%nat && (n <=? 13)%nat) || (n =? 32)%nat
  || (n =? 133)%nat || (n =? 160)%nat.

Fixpoint lstrip (s : string) : string :=
  match s with
  | EmptyString => EmptyString
  | String a s' => if is_space a then lstrip s' else s
  end.

Fixpoint rev (acc s : string) : string :=
  match s with
  | EmptyString => acc
  | String a s' => rev (String a acc) s'
  end.

(** [s.strip()] *)
Definition strip (s : string) : string :=
  rev EmptyString (lstrip (rev EmptyString (lstrip s))).

(** Digits read left to right: [acc] is the number read so far and
    [after_digit] tells whether the last character read was a digit.  One
    [_] may stand between two digits. *)
Fixpoint digits (acc : Z) (after_digit : bool) (s : string) : option Z :=
  match s with
  | EmptyString => if after_digit then Some acc else None
  | String a s' =>
      match digit a with
      | Some d => digits (10 * acc + d)%Z true s'
      | None =>
          if Ascii.eqb a "_" && after_digit then digits acc false s' else None
      end
  end.

(** The number of digits of a string. *)
Fixpoint count_digits (s : string) : N :=
  match s with
  | EmptyString => 0%N
  | String a s' =>
      ((match digit a with Some _ => 1 | None => 0 end) + count_digits s')%N
  end.

(** [sys.get_int_max_str_digits()], as the interpreter starts. *)
Definition max_str_digits : N := 4300%N.

(** The literal of [n] digits [1]. *)
Fixpoint ones (n : nat) : string :=
  match n with
  | O => EmptyString
  | S n' => String "1" (ones n')
  end.

(** [int(s)] in base 10, [None] where it raises [ValueError]: blanks
    around the literal are dropped, then come an optional sign and the
    digits, no more of them than [max_str_digits]. *)
Definition parse (s : string) : option Z :=
  if (max_str_digits <? count_digits (strip s))%N then None
  else
    match strip s with
    | String "-" s' => Z.opp <$> digits 0 false s'
    | String "+" s' => digits 0 false s'
    | s' => digits 0 false s'
    end.

End Int.

Definition py_int : PyType := TCallable "int" (fun s => VInt <$> Int.parse s).

(** ** Descriptors and the command tree *)

Module Option.
Record t : Type := mk {
  name : string;
  short : string;
  type : PyType;
  default : value;
  required : bool;
  help : string;
  multiple : bool
}.
End Option.

(** The fields of a dataclass are not checked when an instance is built:
    [help] holds whatever object the caller passes (see [CLI.argument]). *)
Module Argument.
Record t : Type := mk {
  name : string;
  type : PyType;
  required : bool;
  default : value;
  help : value;
  nargs : string
}.
End Argument.

(** A handler is a function object and [==] on functions is identity, so
    a handler is represented by its identity: the bound method
    [CLI._default_handler] of the root, or the [id]-th function of the
    application.  What an application function does when it is called is
    given to [CLI.run] separately. *)
Inductive Handler : Type :=
| DefaultHandler
| Fn (id : nat).

Definition Handler_eqb (f g : Handler) : bool :=
  match f, g with
  | DefaultHandler, DefaultHandler => true
  | Fn i, Fn j => Nat.eqb i j
  | _, _ => false
  end.

Module Command.
Inductive t : Type := mk {
  name : string;
  handler : Handler;
  help : string;
  options : list Option.t;
  arguments : list Argument.t;
  subcommands : list (string * t)
}.
End Command.

(** Insertion-ordered dictionaries with string keys. *)
Module Dict.
Section Dict.
Context {V : Type}.

(** [d.get(k)] / [k in d] *)
Fixpoint get (k : string) (d : list (string * V)) : option V :=
  match d with
  | [] => None
  | (k', v) :: d' => if String.eqb k' k then Some v else get k d'
  end.

(** [d[k] = v]: an existing key keeps its place, a new key goes last. *)
Fixpoint set (k : string) (v : V) (d : list (string * V)) : list (string * V) :=
  match d with
  | [] => [(k, v)]
  | (k', v') :: d' =>
      if String.eqb k' k then (k', v) :: d' else (k', v') :: set k v d'
  end.

(** [d.values()] *)
Definition values (d : list (string * V)) : list V := map snd d.
End Dict.
End Dict.

Module Context.
Inductive t : Type := mk {
  options : gmap string value;
  arguments : gmap string value;
  parent : option t;
  command : option Command.t
}.

(** [Context()] *)
Definition new : t := mk ∅ ∅ None None.

Definition set_command (c : Command.t) (ctx : t) : t :=
  mk (options ctx) (arguments ctx) (parent ctx) (Some c).
Definition set_parent (p : t) (ctx : t) : t :=
  mk (options ctx) (arguments ctx) (Some p) (command ctx).
Definition set_option (k : string) (v : value) (ctx : t) : t :=
  mk (<[k := v]> (options ctx)) (arguments ctx) (parent ctx) (command ctx).
Definition set_argument (k : string) (v : value) (ctx : t) : t :=
  mk (options ctx) (<[k := v]> (arguments ctx)) (parent ctx) (command ctx).

(** [Context.get] *)
Definition get (key : string) (default : value) (ctx : t) : value :=
  match options ctx !! key with
  | Some v => v
  | None =>
      match arguments ctx !! key with
      | Some v => v
      | None => default
      end
  end.
End Context.

(** ** The parser *)

Module Parser.

(** [Parser._find_option]: the first option with that long name. *)
Fixpoint find_by_name (name : string) (opts : list Option.t) : option Option.t :=
  match opts with
  | [] => None
  | opt :: opts' =>
      if String.eqb (Option.name opt) name then Some opt
      else find_by_name name opts'
  end.

Definition _find_option (cmd : Command.t) (name : string) : option Option.t :=
  find_by_name name (Command.options cmd).

(** [Parser._find_option_short]: the first option with that short name. *)
Fixpoint find_by_short (short : string) (opts : list Option.t) : option Option.t :=
  match opts with
  | [] => None
  | opt :: opts' =>
      if String.eqb (Option.short opt) short then Some opt
      else find_by_short short opts'
  end.

Definition _find_option_short (cmd : Command.t) (short : string) : option Option.t :=
  find_by_short short (Command.options cmd).

(** [Parser._convert]; the token is [None] when a flag ends the stream. *)
Definition _convert (token : option string) (typ : PyType) : result value :=
  match token with
  | None => Ok VNone
  | Some s =>
      match typ with
      | TBool => Ok (VBool (Str.mem (Str.lower s) ["true"; "1"; "yes"; "on"]))
      | TCall _ call => call s
      end
  end.

(** [Parser._apply_defaults]: two loops, each filling the names that are
    not yet keys of the dictionary. *)
Definition default_option (ctx : Context.t) (opt : Option.t) : Context.t :=
  match Context.options ctx !! Option.name opt with
  | Some _ => ctx
  | None => Context.set_option (Option.name opt) (Option.default opt) ctx
  end.

Definition default_argument (ctx : Context.t) (arg : Argument.t) : Context.t :=
  match Context.arguments ctx !! Argument.name arg with
  | Some _ => ctx
  | None => Context.set_argument (Argument.name arg) (Argument.default arg) ctx
  end.

Definition _apply_defaults (cmd : Command.t) (ctx : Context.t) : Context.t :=
  fold_left default_argument (Command.arguments cmd)
    (fold_left default_option (Command.options cmd) ctx).

(** Lines 79-81 and 88: look the key up and, when it names an option,
    convert the value and store it under the option's name. *)
Definition store (opt : Option.t) (token : option string) (ctx : Context.t)
  : result Context.t :=
  try! v := _convert token (Option.type opt) in
  Ok (Context.set_option (Option.name opt) v ctx).

Definition store_long (cmd : Command.t) (key : string) (token : option string)
    (ctx : Context.t) : result Context.t :=
  match _find_option cmd key with
  | Some opt => store opt token ctx
  | None => Ok ctx
  end.

(** Lines 99-101: [collected_args[name].append(v)], creating the list on
    first use. *)
Definition collect (name : string) (v : value)
    (collected_args : gmap string (list value)) : gmap string (list value) :=
  <[name := default [] (collected_args !! name) ++ [v]]> collected_args.

(** Lines 108-112, after the loop: the collected lists are written into
    the arguments and the defaults are applied. *)
Definition finish (cmd : Command.t) (ctx : Context.t)
    (collected_args : gmap string (list value)) : Context.t :=
  _apply_defaults cmd
    (map_fold (fun name values c => Context.set_argument name (VList values) c)
       ctx collected_args).

(** The body of [Parser.parse] from the [while] on: [args] is [args[i:]],
    the other arguments are the local variables of the method. *)
Fixpoint loop (cmd : Command.t) (ctx : Context.t) (arg_idx : nat)
    (collected_args : gmap string (list value)) (args : list string)
    {struct args} : result Context.t :=
  match args with
  | [] => Ok (finish cmd ctx collected_args)
  | arg :: rest =>
      if Str.startswith "--" arg then
        let key := Str.drop 2 arg in
        match Str.split_first "=" key with
        | Some (key, v) =>
            try! ctx' := store_long cmd key (Some v) ctx in
            loop cmd ctx' arg_idx collected_args rest
        | None =>
            match rest with
            | [] =>
                try! ctx' := store_long cmd key None ctx in
                Ok (finish cmd ctx' collected_args)
            | v :: rest' =>
                try! ctx' := store_long cmd key (Some v) ctx in
                loop cmd ctx' arg_idx collected_args rest'
            end
        end
      else if Str.startswith "-" arg && (String.length arg =? 2)%nat then
        let short := Str.item 1 arg in
        match _find_option_short cmd short with
        | Some opt =>
            match rest with
            | [] =>
                try! ctx' := store opt None ctx in
                Ok (finish cmd ctx' collected_args)
            | v :: rest' =>
                try! ctx' := store opt (Some v) ctx in
                loop cmd ctx' arg_idx collected_args rest'
            end
        | None => loop cmd ctx arg_idx collected_args rest
        end
      else
        match Dict.get arg (Command.subcommands cmd) with
        | Some sub =>
            try! sub_ctx :=
              loop sub (Context.set_command sub Context.new) 0%nat ∅ rest in
            Ok (Context.set_parent ctx sub_ctx)
        | None =>
            match Command.arguments cmd !! arg_idx with
            | Some arg_def =>
                try! v := _convert (Some arg) (Argument.type arg_def) in
                if Str.mem (Argument.nargs arg_def) ["*"; "+"] then
                  loop cmd ctx arg_idx
                    (collect (Argument.name arg_def) v collected_args) rest
                else
                  loop cmd (Context.set_argument (Argument.name arg_def) v ctx)
                    (S arg_idx) collected_args rest
            | None => loop cmd ctx arg_idx collected_args rest
            end
        end
  end.

(** [Parser(command).parse(args)] *)
Definition parse (cmd : Command.t) (args : list string) : result Context.t :=
  loop cmd (Context.set_command cmd Context.new) 0%nat ∅ args.

End Parser.


(** ** Registration and dispatch *)

Module CLI.

(** What a hook is called with: [hook(args)], [hook(ctx, result)],
    [hook(e)]. *)
Inductive hook_arg : Type :=
| BeforeArgs (args : list string)
| AfterArgs (ctx : Context.t) (result : value)
| ErrorArgs (e : exn).

(** A hook either returns ([None]) or raises ([Some e]). *)
Definition Hook : Type := hook_arg -> option exn.

(** [self.hooks] always has the three keys "before", "after", "error". *)
Record t : Type := mk {
  name : string;
  version : string;
  help : string;
  root : Command.t;
  before : list Hook;
  after : list Hook;
  error : list Hook
}.

(** [CLI.__init__] *)
Definition new (name version help : string) : t :=
  mk name version help (Command.mk name DefaultHandler help [] [] []) [] [] [].

Definition set_root (r : Command.t) (cli : t) : t :=
  mk (name cli) (version cli) (help cli) r (before cli) (after cli) (error cli).

Definition set_subcommands (subs : list (string * Command.t)) (cli : t) : t :=
  let r := root cli in
  set_root (Command.mk (Command.name r) (Command.handler r) (Command.help r)
              (Command.options r) (Command.arguments r) subs) cli.

(** [CLI.add_hook]: an unknown event is ignored. *)
Definition add_hook (event : string) (h : Hook) (cli : t) : t :=
  if String.eqb event "before" then
    mk (name cli) (version cli) (help cli) (root cli) (before cli ++ [h]) (after cli) (error cli)
  else if String.eqb event "after" then
    mk (name cli) (version cli) (help cli) (root cli) (before cli) (after cli ++ [h]) (error cli)
  else if String.eqb event "error" then
    mk (name cli) (version cli) (help cli) (root cli) (before cli) (after cli) (error cli ++ [h])
  else cli.

(** [CLI.command(name, help)(fn)]: the decorator registers a new child of
    the root and returns [fn]. *)
Definition command (name help : string) (fn : Handler) (cli : t) : t * Handler :=
  (set_subcommands
     (Dict.set name (Command.mk name fn help [] [] []) (Command.subcommands (root cli)))
     cli,
   fn).

(** [CLI._find_command_for_handler]: the first child of the root, in
    insertion order, whose handler is [fn]. *)
Fixpoint first_with_handler (fn : Handler) (cmds : list Command.t) : option Command.t :=
  match cmds with
  | [] => None
  | cmd :: cmds' =>
      if Handler_eqb (Command.handler cmd) fn then Some cmd
      else first_with_handler fn cmds'
  end.

Definition _find_command_for_handler (cli : t) (fn : Handler) : option Command.t :=
  first_with_handler fn (Dict.values (Command.subcommands (root cli))).

(** The command found by [_find_command_for_handler] is the object held by
    the dictionary, so [cmd.options.append(x)] and
    [cmd.arguments.append(x)] change that entry in place. *)
Fixpoint update_first (fn : Handler) (f : Command.t -> Command.t)
    (d : list (string * Command.t)) : list (string * Command.t) :=
  match d with
  | [] => []
  | (k, cmd) :: d' =>
      if Handler_eqb (Command.handler cmd) fn then (k, f cmd) :: d'
      else (k, cmd) :: update_first fn f d'
  end.

Definition append_option (o : Option.t) (cmd : Command.t) : Command.t :=
  Command.mk (Command.name cmd) (Command.handler cmd) (Command.help cmd)
    (Command.options cmd ++ [o]) (Command.arguments cmd) (Command.subcommands cmd).

Definition append_argument (a : Argument.t) (cmd : Command.t) : Command.t :=
  Command.mk (Command.name cmd) (Command.handler cmd) (Command.help cmd)
    (Command.options cmd) (Command.arguments cmd ++ [a]) (Command.subcommands cmd).

(** [CLI.option(...)(fn)] *)
Definition option (name short : string) (type : PyType) (default : value)
    (required : bool) (help : string) (fn : Handler) (cli : t) : t * Handler :=
  match _find_command_for_handler cli fn with
  | Some _ =>
      (set_subcommands
         (update_first fn
            (append_option (Option.mk name short type default required help false))
            (Command.subcommands (root cli)))
         cli,
       fn)
  | None => (cli, fn)
  end.

(** Name resolution inside the decorator of [CLI.argument]: its locals,
    the variables of the enclosing call, then the names bound at module
    level in [cli.py] (no builtin is called [rue] either). *)
Definition scope (name : string) (required : bool) (help nargs : string)
  : list (string * value) :=
  [("fn", VObject "fn"); ("cmd", VObject "cmd");
   ("self", VObject "self"); ("name", VStr name); ("type", VObject "type");
   ("required", VBool required); ("help", VStr help); ("nargs", VStr nargs);
   ("dataclass", VObject "dataclass"); ("field", VObject "field");
   ("Any", VObject "Any"); ("Callable", VObject "Callable");
   ("Dict", VObject "Dict"); ("List", VObject "List");
   ("Optional", VObject "Optional"); ("Type", VObject "Type");
   ("sys", VObject "sys"); ("logging", VObject "logging");
   ("logger", VObject "logger"); ("Option", VObject "Option");
   ("Argument", VObject "Argument"); ("Command", VObject "Command");
   ("Context", VObject "Context"); ("Parser", VObject "Parser");
   ("CLI", VObject "CLI"); ("Group", VObject "Group");
   ("example_usage", VObject "example_usage")].

Definition load_name (n : string) (sc : list (string * value)) : result value :=
  match Dict.get n sc with
  | Some v => Ok v
  | None => Raise (NameError n)
  end.

(** [CLI.argument(...)(fn)].  Line 173 builds the descriptor with
    [help=rue]; the arguments of the constructor are evaluated before the
    descriptor exists and before [append] runs. *)
Definition argument (name : string) (type : PyType) (required : bool)
    (help nargs : string) (fn : Handler) (cli : t) : result (t * Handler) :=
  match _find_command_for_handler cli fn with
  | Some _ =>
      try! h := load_name "rue" (scope name required help nargs) in
      Ok (set_subcommands
            (update_first fn
               (append_argument (Argument.mk name type required VNone h nargs))
               (Command.subcommands (root cli)))
            cli,
          fn)
  | None => Ok (cli, fn)
  end.

(** *** [CLI.run]

    What [run] does to the outside is a trace of events; a computation is
    its trace and its [result], and [Raise e] is an exception on its way
    up. *)
Inductive event : Type :=
| Fired (kind : string) (i : nat) (a : hook_arg)
    (* the [i]-th hook registered for [kind] is called with [a] *)
| Called (h : Handler) (ctx : Context.t)
    (* the handler of the resolved command is called *)
| PrintHelp
| PrintVersion
| PrintError (e : exn).
    (* [print(f"Error: {e}", file=sys.stderr)] *)

Definition io (A : Type) : Type := (list event * result A)%type.

Definition ret {A : Type} (a : A) : io A := ([], Ok a).
Definition raise {A : Type} (e : exn) : io A := ([], Raise e).
Definition emit (ev : event) : io unit := ([ev], Ok tt).

Definition io_bind {A B : Type} (m : io A) (k : A -> io B) : io B :=
  match m with
  | (tr, Ok a) => let '(tr', r) := k a in (tr ++ tr', r)
  | (tr, Raise e) => (tr, Raise e)
  end.

(** [try: m except Exception as e: h e].  Every [exn] is an instance of
    [Exception], so the clause catches it; what is no such instance
    ([SystemExit], [KeyboardInterrupt]) passes the clause in the code and
    has no counterpart here. *)
Definition catch {A : Type} (m : io A) (h : exn -> io A) : io A :=
  match m with
  | (tr, Ok a) => (tr, Ok a)
  | (tr, Raise e) => let '(tr', r) := h e in (tr ++ tr', r)
  end.

(** [for hook in self.hooks[kind]: hook(a)] *)
Fixpoint fire (kind : string) (i : nat) (hooks : list Hook) (a : hook_arg) : io unit :=
  match hooks with
  | [] => ret tt
  | hook :: hooks' =>
      io_bind (emit (Fired kind i a)) (fun _ =>
      match hook a with
      | Some e => raise e
      | None => fire kind (S i) hooks' a
      end)
  end.

(** The trace of a list of hooks that are all called. *)
Fixpoint all_fired (kind : string) (i : nat) (hooks : list Hook) (a : hook_arg)
  : list event :=
  match hooks with
  | [] => []
  | _ :: hooks' => Fired kind i a :: all_fired kind (S i) hooks' a
  end.

(** Calling a handler: [_default_handler] prints the help and returns 0,
    an application function does what [impl] says. *)
Definition call (impl : nat -> Context.t -> result value) (h : Handler)
    (ctx : Context.t) : io value :=
  io_bind (emit (Called h ctx)) (fun _ =>
  match h with
  | DefaultHandler => io_bind (emit PrintHelp) (fun _ => ret (VInt 0))
  | Fn id => ([], impl id ctx)
  end).

(** [result if isinstance(result, int) else 0]; a [bool] is an [int]. *)
Definition status (result : value) : Z :=
  match result with
  | VInt z => z
  | VBool b => Z.b2z b
  | _ => 0%Z
  end.

(** The [try] block of [run], lines 194-210, and the [return 0] of line
    217 when the context resolves to no command (a command always has a
    handler here, and [Parser.parse] always sets the command). *)
Definition dispatch (cli : t) (impl : nat -> Context.t -> result value)
    (args : list string) : io Z :=
  match args with
  | [] => io_bind (emit PrintHelp) (fun _ => ret 0%Z)
  | a0 :: _ =>
      if Str.mem a0 ["-h"; "--help"] then
        io_bind (emit PrintHelp) (fun _ => ret 0%Z)
      else if Str.mem a0 ["-v"; "--version"] then
        io_bind (emit PrintVersion) (fun _ => ret 0%Z)
      else
        io_bind ([], Parser.parse (root cli) args) (fun ctx =>
        match Context.command ctx with
        | Some cmd =>
            io_bind (call impl (Command.handler cmd) ctx) (fun result =>
            io_bind (fire "after" 0 (after cli) (AfterArgs ctx result)) (fun _ =>
            ret (status result)))
        | None => ret 0%Z
        end)
  end.

(** [CLI.run(args)]: the value is the status returned, [Raise e] is an
    exception that leaves [run]. *)
Definition run (cli : t) (impl : nat -> Context.t -> result value)
    (args : list string) : io Z :=
  io_bind (fire "before" 0 (before cli) (BeforeArgs args)) (fun _ =>
  catch (dispatch cli impl args) (fun e =>
    io_bind (fire "error" 0 (error cli) (ErrorArgs e)) (fun _ =>
    io_bind (emit (PrintError e)) (fun _ =>
    ret 1%Z)))).

End CLI.

(** ** The state of the loop after a prefix of the stream

    [reads cmd st pre] is the state in which the loop of [Parser.parse]
    stands once it has read exactly the tokens of [pre], having started in
    state [st]: the context built so far, the positional index and the
    collected lists.  It is [None] when the parser raises or delegates
    inside [pre], and when the last token of [pre] is a flag that takes
    the token after [pre] as its value. *)

Module Prefix.

Definition state : Type := (Context.t * nat * gmap string (list value))%type.

Definition start (cmd : Command.t) : state :=
  (Context.set_command cmd Context.new, 0%nat, ∅).

Definition resume (cmd : Command.t) (st : state) (args : list string)
  : result Context.t :=
  let '(ctx, arg_idx, collected_args) := st in
  Parser.loop cmd ctx arg_idx collected_args args.

Definition ok {A : Type} (r : result A) : option A :=
  match r with Ok a => Some a | Raise _ => None end.

Fixpoint reads (cmd : Command.t) (st : state) (pre : list string)
    {struct pre} : option state :=
  let '(ctx, arg_idx, collected_args) := st in
  match pre with
  | [] => Some st
  | arg :: rest =>
      if Str.startswith "--" arg then
        match Str.split_first "=" (Str.drop 2 arg) with
        | Some (key, v) =>
            match ok (Parser.store_long cmd key (Some v) ctx) with
            | Some ctx' => reads cmd (ctx', arg_idx, collected_args) rest
            | None => None
            end
        | None =>
            match rest with
            | [] => None
            | v :: rest' =>
                match ok (Parser.store_long cmd (Str.drop 2 arg) (Some v) ctx) with
                | Some ctx' => reads cmd (ctx', arg_idx, collected_args) rest'
                | None => None
                end
            end
        end
      else if Str.startswith "-" arg && (String.length arg =? 2)%nat then
        match Parser._find_option_short cmd (Str.item 1 arg) with
        | Some opt =>
            match rest with
            | [] => None
            | v :: rest' =>
                match ok (Parser.store opt (Some v) ctx) with
                | Some ctx' => reads cmd (ctx', arg_idx, collected_args) rest'
                | None => None
                end
            end
        | None => reads cmd st rest
        end
      else
        match Dict.get arg (Command.subcommands cmd) with
        | Some _ => None
        | None =>
            match Command.arguments cmd !! arg_idx with
            | Some arg_def =>
                match ok (Parser._convert (Some arg) (Argument.type arg_def)) with
                | Some v =>
                    if Str.mem (Argument.nargs arg_def) ["*"; "+"] then
                      reads cmd
                        (ctx, arg_idx,
                         Parser.collect (Argument.name arg_def) v collected_args)
                        rest
                    else
                      reads cmd
                        (Context.set_argument (Argument.name arg_def) v ctx,
                         S arg_idx, collected_args)
                        rest
                | None => None
                end
            | None => reads cmd st rest
            end
        end
  end.

(** The first declared argument with that name. *)
Fixpoint find_argument (n : string) (args : list Argument.t) : option Argument.t :=
  match args with
  | [] => None
  | a :: args' =>
      if String.eqb (Argument.name a) n then Some a else find_argument n args'
  end.

(** A bare token: neither a long flag nor a short one. *)
Definition bare (arg : string) : bool :=
  negb (Str.startswith "--" arg)
  && negb (Str.startswith "-" arg && (String.length arg =? 2)%nat).

End Prefix.

(** ** What the options of a context hold *)

Module Filled.

(** The flags that the loop stores at this level, in the order of the
    stream: the option that the key or the short name finds, with the
    token taken as its value ([None] for a flag that ends the stream).
    Flags that find no option are dropped.  The list ends at the first
    bare token that names a subcommand: what follows is read by the
    parser of the child. *)
Definition found (opt : option Option.t) (token : option string)
  : list (Option.t * option string) :=
  match opt with
  | Some o => [(o, token)]
  | None => []
  end.

Fixpoint flags (cmd : Command.t) (args : list string) {struct args}
  : list (Option.t * option string) :=
  match args with
  | [] => []
  | arg :: rest =>
      if Str.startswith "--" arg then
        match Str.split_first "=" (Str.drop 2 arg) with
        | Some (key, v) =>
            found (Parser._find_option cmd key) (Some v) ++ flags cmd rest
        | None =>
            match rest with
            | [] => found (Parser._find_option cmd (Str.drop 2 arg)) None
            | v :: rest' =>
                found (Parser._find_option cmd (Str.drop 2 arg)) (Some v)
                ++ flags cmd rest'
            end
        end
      else if Str.startswith "-" arg && (String.length arg =? 2)%nat then
        match Parser._find_option_short cmd (Str.item 1 arg) with
        | Some opt =>
            match rest with
            | [] => [(opt, None)]
            | v :: rest' => (opt, Some v) :: flags cmd rest'
            end
        | None => flags cmd rest
        end
      else
        match Dict.get arg (Command.subcommands cmd) with
        | Some _ => []
        | None => flags cmd rest
        end
  end.

(** The last of the flags [fl] whose option is called [n]. *)
Fixpoint last_for (n : string) (fl : list (Option.t * option string))
  : option (Option.t * option string) :=
  match fl with
  | [] => None
  | e :: fl' =>
      match last_for n fl' with
      | Some e' => Some e'
      | None => if String.eqb (Option.name (fst e)) n then Some e else None
      end
  end.

(** The value that a flag gives its option: the token converted with the
    type of the option. *)
Definition value_of (e : Option.t * option string) : option value :=
  Prefix.ok (Parser._convert (snd e) (Option.type (fst e))).

(** What the options hold under [n] once the flags [fl] have been
    stored over an entry [base]: the value of the last flag for [n], and
    [base] without such a flag. *)
Definition after (fl : list (Option.t * option string)) (n : string)
    (base : option value) : option value :=
  match last_for n fl with
  | Some e => value_of e
  | None => base
  end.

(** What the stream gives the option name [n] at the level of [cmd]: the
    value of the last flag for it, and nothing without such a flag. *)
Definition stored (cmd : Command.t) (args : list string) (n : string)
  : option value :=
  after (flags cmd args) n None.

(** The same with the defaults applied: without a flag, the default of
    the first option declared under that name. *)
Definition filled (cmd : Command.t) (args : list string) (n : string)
  : option value :=
  after (flags cmd args) n (Option.default <$> Parser._find_option cmd n).

(** Where the parse of [args] against [cmd] ends when it delegates: the
    command of the last parser in the chain of delegations and the tokens
    that this parser reads.  [None] when no bare token names a
    subcommand. *)
Fixpoint deepest (cmd : Command.t) (args : list string) {struct args}
  : option (Command.t * list string) :=
  match args with
  | [] => None
  | arg :: rest =>
      if Str.startswith "--" arg then
        match Str.split_first "=" (Str.drop 2 arg) with
        | Some _ => deepest cmd rest
        | None =>
            match rest with
            | [] => None
            | _ :: rest' => deepest cmd rest'
            end
        end
      else if Str.startswith "-" arg && (String.length arg =? 2)%nat then
        match Parser._find_option_short cmd (Str.item 1 arg) with
        | Some _ =>
            match rest with
            | [] => None
            | _ :: rest' => deepest cmd rest'
            end
        | None => deepest cmd rest
        end
      else
        match Dict.get arg (Command.subcommands cmd) with
        | Some sub =>
            match deepest sub rest with
            | Some l => Some l
            | None => Some (sub, rest)
            end
        | None => deepest cmd rest
        end
  end.

(** The command that the returned context belongs to, and the tokens read
    at its level. *)
Definition level (cmd : Command.t) (args : list string)
  : Command.t * list string :=
  match deepest cmd args with
  | Some l => l
  | None => (cmd, args)
  end.

(** What the loop of [cmd] returns from the context [ctx] when the flags
    [fl] of its level are still to be stored and [d] tells where the
    parse ends: without a delegation, the context of this level with the
    flags stored over the entries of [ctx] and the defaults applied to
    the names left; with one, the filled context of the last level, whose
    parent is the context of this level with the flags stored and no
    default applied.  In both cases every option that the command of the
    result declares is a key of its options. *)
Definition returns (cmd : Command.t) (ctx : Context.t)
    (fl : list (Option.t * option string))
    (d : option (Command.t * list string)) (r : Context.t) : Prop :=
  match d with
  | Some (c, lvl) =>
      Context.command r = Some c /\
      (forall o, In o (Command.options c) ->
                 is_Some (Context.options r !! Option.name o)) /\
      (forall k, Context.options r !! k = filled c lvl k) /\
      exists p,
        Context.parent r = Some p /\
        Context.command p = Context.command ctx /\
        Context.parent p = Context.parent ctx /\
        forall k, Context.options p !! k = after fl k (Context.options ctx !! k)
  | None =>
      Context.command r = Context.command ctx /\
      Context.parent r = Context.parent ctx /\
      (forall o, In o (Command.options cmd) ->
                 is_Some (Context.options r !! Option.name o)) /\
      forall k, Context.options r !! k
                = after fl k
                    (match Context.options ctx !! k with
                     | Some v => Some v
                     | None => Option.default <$> Parser._find_option cmd k
                     end)
  end.

End Filled.

(** ** The positional tokens of a stream *)

Module Positional.

(** The tokens that the loop of [Parser.parse] treats as bare tokens at
    this level: those that are neither a flag nor the value that a flag
    takes ([--key] takes the next token, [--key=v] takes none, [-c] takes
    the next token when [c] is the short name of an option). *)
Fixpoint positionals (cmd : Command.t) (args : list string) {struct args}
  : list string :=
  match args with
  | [] => []
  | arg :: rest =>
      if Str.startswith "--" arg then
        match Str.split_first "=" (Str.drop 2 arg) with
        | Some _ => positionals cmd rest
        | None =>
            match rest with
            | [] => []
            | _ :: rest' => positionals cmd rest'
            end
        end
      else if Str.startswith "-" arg && (String.length arg =? 2)%nat then
        match Parser._find_option_short cmd (Str.item 1 arg) with
        | Some _ =>
            match rest with
            | [] => []
            | _ :: rest' => positionals cmd rest'
            end
        | None => positionals cmd rest
        end
      else arg :: positionals cmd rest
  end.

(** [nargs in ("*", "+")] *)
Definition variadic (a : Argument.t) : bool :=
  Str.mem (Argument.nargs a) ["*"; "+"].

(** The value of a variadic argument once the tokens that reached it have
    been converted to [vs]: the list, or the default when there is none. *)
Definition bound (a : Argument.t) (vs : list value) : value :=
  match vs with
  | [] => Argument.default a
  | _ :: _ => VList vs
  end.

End Positional.

(** ** The application of [example_usage], and variations on it *)

Module Examples.

(** The command [greet] with the options of the spec's scenario. *)
Definition greet : Command.t :=
  Command.mk "greet" (Fn 1) "Greet someone"
    [Option.mk "name" "n" py_str (VStr "World") false "" false;
     Option.mk "count" "c" py_int (VInt 1) false "" false]
    [Argument.mk "greeting" py_str false (VStr "Hello") (VStr "") ""]
    [].

(** A root with an option, a positional argument and [greet] as child. *)
Definition root : Command.t :=
  Command.mk "myapp" DefaultHandler "My CLI application"
    [Option.mk "verbose" "" TBool (VBool false) false "" false]
    [Argument.mk "target" py_str true VNone (VStr "") ""]
    [("greet", greet)].

(** A command whose only argument is variadic. *)
Definition add : Command.t :=
  Command.mk "add" (Fn 2) "Add files" []
    [Argument.mk "files" py_str true VNone (VStr "") "+"] [].

(** A command whose only argument takes one or more integers. *)
Definition total : Command.t :=
  Command.mk "total" (Fn 5) "Add numbers"
    [Option.mk "scale" "s" py_int (VInt 1) false "" false]
    [Argument.mk "nums" py_int true VNone (VStr "") "+"] [].

(** What parsing [a b c], and parsing nothing, against [add] returns. *)
Definition added_abc : Context.t :=
  Parser.finish add (Context.set_command add Context.new)
    (Parser.collect "files" (VStr "c")
       (Parser.collect "files" (VStr "b")
          (Parser.collect "files" (VStr "a") ∅))).

Definition added_none : Context.t :=
  Parser.finish add (Context.set_command add Context.new) ∅.

(** Two commands that differ in the name of their integer option. *)
Definition by_count : Command.t :=
  Command.mk "run" (Fn 3) ""
    [Option.mk "count" "" py_int (VInt 1) false "" false] [] [].

Definition by_size : Command.t :=
  Command.mk "run" (Fn 3) ""
    [Option.mk "size" "" py_int (VInt 1) false "" false] [] [].

(** [app = CLI("myapp"); @app.command("greet") def greet(ctx): ...] *)
Definition app : CLI.t :=
  fst (CLI.command "greet" "Greet someone" (Fn 1)
         (CLI.new "myapp" "1.0.0" "My CLI application")).

(** [greet] decorated with the two options of the spec's scenario:
    [@app.option("name", default="World")] and
    [@app.option("count", type=int, default=1)]. *)
Definition app_options : CLI.t :=
  fst (CLI.option "count" "" py_int (VInt 1) false "" (Fn 1)
         (fst (CLI.option "name" "" py_str (VStr "World") false "" (Fn 1) app))).

(** What a handler reads with [ctx.get(key)] after a parse. *)
Definition seen (cli : CLI.t) (args : list string) (key : string) : result value :=
  try! ctx := Parser.parse (CLI.root cli) args in Ok (Context.get key VNone ctx).

(** The same application with a "before" hook that raises and an "error"
    hook that returns. *)
Definition failing_hook : CLI.Hook := fun _ => Some (RuntimeError "boom").
Definition quiet_hook : CLI.Hook := fun _ => None.

Definition app_before : CLI.t :=
  CLI.add_hook "error" quiet_hook (CLI.add_hook "before" failing_hook app).

Definition app_after : CLI.t :=
  CLI.add_hook "error" quiet_hook (CLI.add_hook "after" failing_hook app).

(** The context that [app] resolves [["greet"]] to. *)
Definition greet_ctx : Context.t :=
  Context.set_parent (Context.set_command (CLI.root app) Context.new)
    (Parser.finish (Command.mk "greet" (Fn 1) "Greet someone" [] [] [])
       (Context.set_command (Command.mk "greet" (Fn 1) "Greet someone" [] [] [])
          Context.new)
       ∅).

(** Every application function returns [0]. *)
Definition impl : nat -> Context.t -> result value := fun _ _ => Ok (VInt 0).

End Examples.

(** ** One iteration of the loop, and the tree of commands *)

Module Loop.

(** What one turn of the loop of [Parser.parse] can do to its state when
    it neither raises nor delegates: nothing (a token or a flag is
    dropped), store the converted value of an option, append a converted
    token to the list of the variadic argument at the positional index, or
    bind a converted token to the argument at the positional index and
    move on to the next. *)
Inductive step (cmd : Command.t) : Prefix.state -> Prefix.state -> Prop :=
| step_skip (st : Prefix.state) : step cmd st st
| step_store (ctx : Context.t) (idx : nat) (col : gmap string (list value))
    (o : Option.t) (tok : option string) (v : value) :
    In o (Command.options cmd) ->
    Parser._convert tok (Option.type o) = Ok v ->
    step cmd (ctx, idx, col) (Context.set_option (Option.name o) v ctx, idx, col)
| step_collect (ctx : Context.t) (idx : nat) (col : gmap string (list value))
    (a : Argument.t) (tok : string) (v : value) :
    Command.arguments cmd !! idx = Some a ->
    Positional.variadic a = true ->
    Parser._convert (Some tok) (Argument.type a) = Ok v ->
    step cmd (ctx, idx, col) (ctx, idx, Parser.collect (Argument.name a) v col)
| step_bind (ctx : Context.t) (idx : nat) (col : gmap string (list value))
    (a : Argument.t) (tok : string) (v : value) :
    Command.arguments cmd !! idx = Some a ->
    Positional.variadic a = false ->
    Parser._convert (Some tok) (Argument.type a) = Ok v ->
    step cmd (ctx, idx, col)
      (Context.set_argument (Argument.name a) v ctx, S idx, col).

(** [e] is the exception that a type declared by the command, on an
    option or on an argument, raises when it is called on the string
    [s]. *)
Definition raised_on (cmd : Command.t) (s : string) (e : exn) : Prop :=
  exists tname call,
    call s = Raise e /\
    ((exists o, In o (Command.options cmd) /\ Option.type o = TCall tname call) \/
     (exists a, In a (Command.arguments cmd) /\ Argument.type a = TCall tname call)).

(** The call of the type never raises. *)
Definition accepts_all (typ : PyType) : Prop :=
  match typ with
  | TBool => True
  | TCall _ call => forall s, exists v, call s = Ok v
  end.

(** The keys of the state are names that the command declares. *)
Definition declared (cmd : Command.t) (st : Prefix.state) : Prop :=
  let '(ctx, _, col) := st in
  (forall n, is_Some (Context.options ctx !! n) ->
             In n (map Option.name (Command.options cmd))) /\
  (forall n, is_Some (Context.arguments ctx !! n) ->
             In n (map Argument.name (Command.arguments cmd))) /\
  (forall n, is_Some (col !! n) ->
             In n (map Argument.name (Command.arguments cmd))).

(** A turn on a flag leaves the bound arguments, the positional index and
    the collected lists as they were. *)
Definition kept (st st' : Prefix.state) : Prop :=
  Context.arguments (st'.1.1) = Context.arguments (st.1.1) /\
  st'.1.2 = st.1.2 /\ st'.2 = st.2.

(** A turn on the positional token [arg] (lines 96-104): without an
    argument at the positional index the token is dropped; otherwise it is
    converted with the type of that argument and appended to its list
    (variadic) or bound to its name, and then the index moves on. *)
Definition took (cmd : Command.t) (arg : string) (st st' : Prefix.state) : Prop :=
  match Command.arguments cmd !! st.1.2 with
  | None => st' = st
  | Some a =>
      exists v,
        Parser._convert (Some arg) (Argument.type a) = Ok v /\
        st' = if Positional.variadic a
              then (st.1.1, st.1.2, Parser.collect (Argument.name a) v st.2)
              else (Context.set_argument (Argument.name a) v st.1.1,
                    S st.1.2, st.2)
  end.

(** The keys of a context are exactly the names that the command
    declares. *)
Definition exact (c : Command.t) (r : Context.t) : Prop :=
  (forall n, is_Some (Context.options r !! n) <->
             In n (map Option.name (Command.options c))) /\
  (forall n, is_Some (Context.arguments r !! n) <->
             In n (map Argument.name (Command.arguments c))).

End Loop.

Module Tree.

(** [d] is [c] or is reached from [c] along subcommand names. *)
Inductive descendant : Command.t -> Command.t -> Prop :=
| here (c : Command.t) : descendant c c
| below (c sub d : Command.t) (k : string) :
    Dict.get k (Command.subcommands c) = Some sub ->
    descendant sub d ->
    descendant c d.

(** No type declared in the tree below [c] ever raises. *)
Definition lenient (c : Command.t) : Prop :=
  forall d, descendant c d ->
    Forall (fun o => Loop.accepts_all (Option.type o)) (Command.options d) /\
    Forall (fun a => Loop.accepts_all (Argument.type a)) (Command.arguments d).

(** A dictionary of commands as the registration functions build it: the
    keys are distinct and each command is stored under its own name. *)
Definition keyed (d : list (string * Command.t)) : Prop :=
  NoDup (map fst d) /\ Forall (fun kc => fst kc = Command.name (snd kc)) d.

End Tree.

(** ** Groups (class [Group])

    A group owns a command, [self.parent], which it also stores in the
    root of the application; [Group.command] changes that object in place.
    Each group builds its own handler, [lambda ctx: 0], so the command of
    the group is the one command whose handler is that function: it is
    found in the root by the identity of the handler.  When a later
    registration has replaced it in the root, the command of the group is
    no longer part of the application and changing it changes nothing
    there.  This stands for the identity of the object as long as the
    function of the group handles no other command of the root, which
    only an application that registers [group.parent.handler] itself can
    undo; the statements on groups below assume it
    ([Registered.unregistered]). *)

Module Group.

Record t : Type := mk {
  name : string;
  help : string;
  handler : nat
}.

(** [Group(cli, name, help)]; [lambda] is the identity of the function
    that the constructor creates. *)
Definition new (lambda : nat) (name help : string) (cli : CLI.t) : CLI.t * t :=
  (CLI.set_subcommands
     (Dict.set name (Command.mk name (Fn lambda) help [] [] [])
        (Command.subcommands (CLI.root cli)))
     cli,
   mk name help lambda).

(** [parent.subcommands[name] = cmd] *)
Definition add_subcommand (name : string) (cmd parent : Command.t) : Command.t :=
  Command.mk (Command.name parent) (Command.handler parent) (Command.help parent)
    (Command.options parent) (Command.arguments parent)
    (Dict.set name cmd (Command.subcommands parent)).

(** [group.command(name, help)(fn)] *)
Definition command (g : t) (name help : string) (fn : Handler) (cli : CLI.t)
  : CLI.t * Handler :=
  (CLI.set_subcommands
     (CLI.update_first (Fn (handler g))
        (add_subcommand name (Command.mk name fn help [] [] []))
        (Command.subcommands (CLI.root cli)))
     cli,
   fn).

End Group.

(** ** Applications built through the registration functions *)

Module Registered.

(** The applications that [CLI(...)], [@app.command], [@app.option],
    [app.add_hook], [Group(app, ...)] and [@group.command] produce. *)
Inductive built : CLI.t -> Prop :=
| built_new (name version help : string) : built (CLI.new name version help)
| built_command (cli : CLI.t) (name help : string) (fn : Handler) :
    built cli -> built (fst (CLI.command name help fn cli))
| built_option (cli : CLI.t) (name short : string) (type : PyType)
    (default : value) (required : bool) (help : string) (fn : Handler) :
    built cli ->
    built (fst (CLI.option name short type default required help fn cli))
| built_hook (cli : CLI.t) (event : string) (h : CLI.Hook) :
    built cli -> built (CLI.add_hook event h cli)
| built_group (cli : CLI.t) (lambda : nat) (name help : string) :
    built cli -> built (fst (Group.new lambda name help cli))
| built_group_command (cli : CLI.t) (g : Group.t) (name help : string)
    (fn : Handler) :
    built cli -> built (fst (Group.command g name help fn cli)).

(** No child of the root has the handler [fn]. *)
Definition unregistered (fn : Handler) (cli : CLI.t) : Prop :=
  Forall (fun kc => Handler_eqb (Command.handler (snd kc)) fn = false)
    (Command.subcommands (CLI.root cli)).

(** The application of [example_usage]: [greet], [calc], and the group
    [db] with its command [migrate]; the function of the group is number
    [0], the three handlers are numbers [1], [2] and [3]. *)
Definition example_app : CLI.t :=
  let app := CLI.new "myapp" "1.0.0" "My CLI application" in
  let app := fst (CLI.command "greet" "Greet someone" (Fn 1) app) in
  let app := fst (CLI.command "calc" "Calculator" (Fn 2) app) in
  let '(app, db) := Group.new 0 "db" "Database commands" app in
  fst (Group.command db "migrate" "Run migrations" (Fn 3) app).

(** The commands of [example_app] below its root, and the context that
    the tokens [db migrate] resolve to. *)
Definition migrate_cmd : Command.t :=
  Command.mk "migrate" (Fn 3) "Run migrations" [] [] [].

Definition db_cmd : Command.t :=
  Command.mk "db" (Fn 0) "Database commands" [] [] [("migrate", migrate_cmd)].

Definition migrate_ctx : Context.t :=
  Context.set_parent (Context.set_command (CLI.root example_app) Context.new)
    (Context.set_parent (Context.set_command db_cmd Context.new)
       (Parser.finish migrate_cmd (Context.set_command migrate_cmd Context.new) ∅)).

(** A command with one option that has a short name, and one argument. *)
Definition copy : Command.t :=
  Command.mk "copy" (Fn 4) "Copy a file"
    [Option.mk "mode" "m" py_str (VStr "fast") false "" true]
    [Argument.mk "source" py_str true VNone (VStr "") ""]
    [].

(** A command with an integer argument followed by a string argument. *)
Definition resize : Command.t :=
  Command.mk "resize" (Fn 5) "Resize an image"
    [Option.mk "mode" "m" py_str (VStr "fast") false "" false]
    [Argument.mk "width" py_int true (VInt 0) (VStr "") "";
     Argument.mk "image" py_str true VNone (VStr "") ""]
    [].



(** Application functions that all raise. *)
Definition failing_impl : nat -> Context.t -> result value :=
  fun _ _ => Raise (RuntimeError "down").

End Registered.

(** ** Lemmas on the maps of a context *)

Section Defaults.

Lemma default_options_lookup (opts : list Option.t) (ctx : Context.t) (n : string) :
  Context.options (fold_left Parser.default_option opts ctx) !! n =
  match Context.options ctx !! n with
  | Some v => Some v
  | None => Option.default <$> Parser.find_by_name n opts
  end.
Proof.
  revert ctx. induction opts as [|o opts IH]; intros ctx; simpl.
  - by destruct (Context.options ctx !! n).
  - rewrite IH. unfold Parser.default_option.
    destruct (String.eqb_spec (Option.name o) n) as [->|Hne].
    + destruct (Context.options ctx !! n) eqn:E; rewrite ?E; [done|].
      simpl. by rewrite lookup_insert_eq.
    + destruct (Context.options ctx !! Option.name o) eqn:E; [done|].
      simpl. by rewrite lookup_insert_ne.
Qed.

Lemma default_options_frame (opts : list Option.t) (ctx : Context.t) :
  let ctx' := fold_left Parser.default_option opts ctx in
  Context.arguments ctx' = Context.arguments ctx /\
  Context.parent ctx' = Context.parent ctx /\
  Context.command ctx' = Context.command ctx.
Proof.
  revert ctx. induction opts as [|o opts IH]; intros ctx; simpl; [done|].
  destruct (IH (Parser.default_option ctx o)) as (-> & -> & ->).
  unfold Parser.default_option.
  by destruct (Context.options ctx !! Option.name o).
Qed.

Lemma default_arguments_lookup (args : list Argument.t) (ctx : Context.t) (n : string) :
  Context.arguments (fold_left Parser.default_argument args ctx) !! n =
  match Context.arguments ctx !! n with
  | Some v => Some v
  | None => Argument.default <$> Prefix.find_argument n args
  end.
Proof.
  revert ctx. induction args as [|a args IH]; intros ctx; simpl.
  - by destruct (Context.arguments ctx !! n).
  - rewrite IH. unfold Parser.default_argument.
    destruct (String.eqb_spec (Argument.name a) n) as [->|Hne].
    + destruct (Context.arguments ctx !! n) eqn:E; rewrite ?E; [done|].
      simpl. by rewrite lookup_insert_eq.
    + destruct (Context.arguments ctx !! Argument.name a) eqn:E; [done|].
      simpl. by rewrite lookup_insert_ne.
Qed.

Lemma default_arguments_frame (args : list Argument.t) (ctx : Context.t) :
  let ctx' := fold_left Parser.default_argument args ctx in
  Context.options ctx' = Context.options ctx /\
  Context.parent ctx' = Context.parent ctx /\
  Context.command ctx' = Context.command ctx.
Proof.
  revert ctx. induction args as [|a args IH]; intros ctx; simpl; [done|].
  destruct (IH (Parser.default_argument ctx a)) as (-> & -> & ->).
  unfold Parser.default_argument.
  by destruct (Context.arguments ctx !! Argument.name a).
Qed.

Lemma collected_stored (ctx : Context.t) (col : gmap string (list value)) :
  let ctx' :=
    map_fold (fun name values c => Context.set_argument name (VList values) c)
      ctx col in
  Context.options ctx' = Context.options ctx /\
  Context.parent ctx' = Context.parent ctx /\
  Context.command ctx' = Context.command ctx /\
  forall n, Context.arguments ctx' !! n =
            match col !! n with
            | Some l => Some (VList l)
            | None => Context.arguments ctx !! n
            end.
Proof.
  simpl. apply (map_fold_weak_ind (fun r m =>
    Context.options r = Context.options ctx /\
    Context.parent r = Context.parent ctx /\
    Context.command r = Context.command ctx /\
    forall n, Context.arguments r !! n =
              match m !! n with
              | Some l => Some (VList l)
              | None => Context.arguments ctx !! n
              end)).
  - repeat split; try done; intros n; by rewrite lookup_empty.
  - intros i x m r Hi (Ho & Hp & Hc & Ha).
    split; [done|]. split; [done|]. split; [done|].
    intros n. simpl. destruct (decide (i = n)) as [->|Hne].
    + by rewrite !lookup_insert_eq.
    + rewrite !lookup_insert_ne by done. apply Ha.
Qed.

Lemma finish_options (cmd : Command.t) (ctx : Context.t)
    (col : gmap string (list value)) (n : string) :
  Context.options (Parser.finish cmd ctx col) !! n =
  match Context.options ctx !! n with
  | Some v => Some v
  | None => Option.default <$> Parser._find_option cmd n
  end.
Proof.
  unfold Parser.finish, Parser._apply_defaults.
  destruct (default_arguments_frame (Command.arguments cmd)
    (fold_left Parser.default_option (Command.options cmd)
      (map_fold (fun name values c => Context.set_argument name (VList values) c)
         ctx col))) as (-> & _).
  rewrite default_options_lookup.
  by destruct (collected_stored ctx col) as (-> & _).
Qed.

Lemma finish_arguments (cmd : Command.t) (ctx : Context.t)
    (col : gmap string (list value)) (n : string) :
  Context.arguments (Parser.finish cmd ctx col) !! n =
  match col !! n with
  | Some l => Some (VList l)
  | None =>
      match Context.arguments ctx !! n with
      | Some v => Some v
      | None => Argument.default <$> Prefix.find_argument n (Command.arguments cmd)
      end
  end.
Proof.
  unfold Parser.finish, Parser._apply_defaults.
  rewrite default_arguments_lookup.
  destruct (default_options_frame (Command.options cmd)
    (map_fold (fun name values c => Context.set_argument name (VList values) c)
       ctx col)) as (-> & _).
  destruct (collected_stored ctx col) as (_ & _ & _ & ->).
  by destruct (col !! n).
Qed.

Lemma finish_frame (cmd : Command.t) (ctx : Context.t)
    (col : gmap string (list value)) :
  Context.parent (Parser.finish cmd ctx col) = Context.parent ctx /\
  Context.command (Parser.finish cmd ctx col) = Context.command ctx.
Proof.
  unfold Parser.finish, Parser._apply_defaults.
  destruct (default_arguments_frame (Command.arguments cmd)
    (fold_left Parser.default_option (Command.options cmd)
      (map_fold (fun name values c => Context.set_argument name (VList values) c)
         ctx col))) as (_ & -> & ->).
  destruct (default_options_frame (Command.options cmd)
    (map_fold (fun name values c => Context.set_argument name (VList values) c)
       ctx col)) as (_ & -> & ->).
  by destruct (collected_stored ctx col) as (_ & -> & -> & _).
Qed.

End Defaults.

(** ** Lookup by name among declarations with distinct names *)

Section Lookup.

Lemma find_by_name_name (n : string) (opts : list Option.t) (o : Option.t) :
  Parser.find_by_name n opts = Some o -> Option.name o = n /\ In o opts.
Proof.
  induction opts as [|o' opts IH]; simpl; [done|].
  destruct (String.eqb_spec (Option.name o') n) as [<-|Hne].
  - intros [= ->]. auto.
  - intros H. destruct (IH H). auto.
Qed.

Lemma find_by_name_is_Some (n : string) (opts : list Option.t) :
  In n (map Option.name opts) -> is_Some (Parser.find_by_name n opts).
Proof.
  induction opts as [|o' opts IH]; simpl; [done|].
  destruct (String.eqb_spec (Option.name o') n) as [<-|Hne]; [eauto|].
  intros [H|H]; [done|auto].
Qed.

Lemma find_by_name_NoDup (opts : list Option.t) (o : Option.t) :
  NoDup (map Option.name opts) -> In o opts ->
  Parser.find_by_name (Option.name o) opts = Some o.
Proof.
  induction opts as [|o' opts IH]; simpl; [done|].
  intros Hnd [->|Hin].
  - by rewrite String.eqb_refl.
  - apply NoDup_cons in Hnd as [Hnotin Hnd].
    destruct (String.eqb_spec (Option.name o') (Option.name o)) as [Heq|Hne].
    + exfalso. apply Hnotin. rewrite Heq.
      apply list_elem_of_In, in_map, Hin.
    + auto.
Qed.

Lemma find_argument_NoDup (args : list Argument.t) (a : Argument.t) :
  NoDup (map Argument.name args) -> In a args ->
  Prefix.find_argument (Argument.name a) args = Some a.
Proof.
  induction args as [|a' args IH]; simpl; [done|].
  intros Hnd [->|Hin].
  - by rewrite String.eqb_refl.
  - apply NoDup_cons in Hnd as [Hnotin Hnd].
    destruct (String.eqb_spec (Argument.name a') (Argument.name a)) as [Heq|Hne].
    + exfalso. apply Hnotin. rewrite Heq.
      apply list_elem_of_In, in_map, Hin.
    + auto.
Qed.

Lemma find_by_short_In (short : string) (opts : list Option.t) (o : Option.t) :
  Parser.find_by_short short opts = Some o -> In o opts.
Proof.
  induction opts as [|o' opts IH]; simpl; [done|].
  destruct (String.eqb (Option.short o') short).
  - intros [= ->]. auto.
  - auto.
Qed.

End Lookup.

(** ** Reading a prefix and going on *)

Section Reads.

Lemma resume_reads_bounded (cmd : Command.t) (n : nat) :
  forall (pre : list string) (st st' : Prefix.state) (rest : list string),
    length pre <= n ->
    Prefix.reads cmd st pre = Some st' ->
    Prefix.resume cmd st (pre ++ rest) = Prefix.resume cmd st' rest.
Proof.
  induction n as [|n IH]; intros pre st st' rest Hlen Hr;
    destruct st as [[ctx idx] col];
    (destruct pre as [|arg pre];
     [ simpl in Hr; injection Hr as <-; reflexivity | ]);
    [ simpl in Hlen; lia | ].
  simpl in Hlen.
  cbn [Prefix.reads] in Hr.
  cbn [Prefix.resume app Parser.loop].
  destruct (Str.startswith "--" arg).
  - generalize dependent (Str.drop 2 arg). intros key0 Hr.
    destruct (Str.split_first "=" key0) as [[key v]|].
    + destruct (Parser.store_long cmd key (Some v) ctx) as [ctx'|e];
        [|discriminate]. simpl in Hr. simpl.
      apply (IH pre (ctx', idx, col)); [lia|done].
    + destruct pre as [|v pre']; [discriminate|]. cbn [app].
      destruct (Parser.store_long cmd key0 (Some v) ctx) as [ctx'|e];
        [|discriminate]. simpl in Hr, Hlen. simpl.
      apply (IH pre' (ctx', idx, col)); [lia|done].
  - destruct (Str.startswith "-" arg && (String.length arg =? 2)%nat).
    + generalize dependent (Str.item 1 arg). intros short Hr.
      destruct (Parser._find_option_short cmd short) as [opt|].
      * destruct pre as [|v pre']; [discriminate|]. cbn [app].
        destruct (Parser.store opt (Some v) ctx) as [ctx'|e];
          [|discriminate]. simpl in Hr, Hlen. simpl.
        apply (IH pre' (ctx', idx, col)); [lia|done].
      * apply (IH pre (ctx, idx, col)); [lia|done].
    + destruct (Dict.get arg (Command.subcommands cmd)); [discriminate|].
      destruct (Command.arguments cmd !! idx) as [arg_def|].
      * destruct (Parser._convert (Some arg) (Argument.type arg_def)) as [v|e];
          [|discriminate]. cbn [Prefix.ok bind] in Hr |- *.
        destruct (Str.mem (Argument.nargs arg_def) ["*"; "+"]).
        -- apply (IH pre (ctx, idx, Parser.collect (Argument.name arg_def) v col));
             [lia|done].
        -- apply (IH pre (Context.set_argument (Argument.name arg_def) v ctx,
                           S idx, col)); [lia|done].
      * apply (IH pre (ctx, idx, col)); [lia|done].
Qed.

(** Once the parser has read [pre], the rest of the parse is the loop
    resumed in the state reached. *)
Lemma resume_reads (cmd : Command.t) (pre rest : list string)
    (st st' : Prefix.state) :
  Prefix.reads cmd st pre = Some st' ->
  Prefix.resume cmd st (pre ++ rest) = Prefix.resume cmd st' rest.
Proof. apply (resume_reads_bounded cmd (length pre)). lia. Qed.

Lemma parse_reads (cmd : Command.t) (pre rest : list string) (st : Prefix.state) :
  Prefix.reads cmd (Prefix.start cmd) pre = Some st ->
  Parser.parse cmd (pre ++ rest) = Prefix.resume cmd st rest.
Proof. intros H. apply (resume_reads cmd pre rest _ _ H). Qed.

End Reads.

(** ** Facts on the string primitives *)

Section Strings.

Lemma startswith_long (s : string) : Str.startswith "--" ("--" ++ s) = true.
Proof. reflexivity. Qed.

Lemma drop_long (s : string) : Str.drop 2 ("--" ++ s) = s.
Proof. reflexivity. Qed.

Lemma split_first_None_app (key v : string) :
  Str.split_first "=" key = None ->
  Str.split_first "=" (key ++ String "=" v) = Some (key, v).
Proof.
  induction key as [|a key IH]; simpl; [done|].
  destruct (Ascii.eqb a "=") eqn:E; [done|].
  destruct (Str.split_first "=" key) as [[k w]|] eqn:E'; [done|].
  intros _. by rewrite IH.
Qed.

Lemma contains_false (key : string) :
  Str.contains "=" key = false -> Str.split_first "=" key = None.
Proof. unfold Str.contains. by destruct (Str.split_first "=" key). Qed.

Lemma bare_spec (arg : string) :
  Prefix.bare arg = true ->
  Str.startswith "--" arg = false /\
  Str.startswith "-" arg && (String.length arg =? 2)%nat = false.
Proof.
  unfold Prefix.bare. intros H. apply andb_prop in H as [H1 H2].
  split; by apply negb_true_iff.
Qed.

Example int_examples :
  Int.parse "3" = Some 3%Z /\ Int.parse " -12 " = Some (-12)%Z /\
  Int.parse "1_000" = Some 1000%Z /\ Int.parse "+7" = Some 7%Z /\
  Int.parse "abc" = None /\ Int.parse "" = None /\ Int.parse "1__0" = None /\
  Int.parse "_1" = None /\ Int.parse "1_" = None /\ Int.parse "- 1" = None /\
  Int.parse "3.5" = None /\ Int.parse "007" = Some 7%Z.
Proof. repeat split. Qed.

(** The blanks of [int()]: a tab, a no-break space; not the separator 28. *)
Example int_blanks :
  Int.parse (String (ascii_of_nat 9) "5") = Some 5%Z /\
  Int.parse (String (ascii_of_nat 160) "5") = Some 5%Z /\
  Int.parse (String (ascii_of_nat 28) "5") = None /\
  Int.parse (String (ascii_of_nat 31) "5") = None.
Proof. repeat split. Qed.

(** The bound on the digits: 4300 digits convert, 4301 do not, with or
    without a sign and blanks. *)
Example int_digit_limit :
  (exists z, Int.parse (Int.ones 4300) = Some z) /\
  Int.parse (Int.ones 4301) = None /\
  Int.parse (" -" ++ Int.ones 4301) = None.
Proof.
  split; [|split; vm_compute; reflexivity].
  eexists. vm_compute. reflexivity.
Qed.

End Strings.

(** ** The scenario of the spec, run on the embedding *)

Section Scenario.

Example greet_defaults :
  Examples.seen Examples.app_options ["greet"] "name" = Ok (VStr "World") /\
  Examples.seen Examples.app_options ["greet"] "count" = Ok (VInt 1).
Proof. split; vm_compute; reflexivity. Qed.

Example greet_Ada_3 :
  Examples.seen Examples.app_options
    ["greet"; "--name"; "Ada"; "--count"; "3"] "name" = Ok (VStr "Ada") /\
  Examples.seen Examples.app_options
    ["greet"; "--name"; "Ada"; "--count"; "3"] "count" = Ok (VInt 3).
Proof. split; vm_compute; reflexivity. Qed.

Example greet_on :
  Parser._convert (Some "YES") TBool = Ok (VBool true) /\
  Parser._convert (Some "maybe") TBool = Ok (VBool false).
Proof. split; reflexivity. Qed.

End Scenario.

(** ** One turn of the loop *)

Section Iteration.

(** [_convert] raises what the call of the type raises on the token, and
    nothing else. *)
Lemma convert_raises_call (tok : option string) (typ : PyType) (e : exn) :
  Parser._convert tok typ = Raise e ->
  exists tname call s,
    typ = TCall tname call /\ tok = Some s /\ call s = Raise e.
Proof.
  destruct tok as [s|]; [|discriminate].
  destruct typ as [|tname call]; [discriminate|].
  simpl. intros E. by exists tname, call, s.
Qed.

Lemma store_cases (cmd : Command.t) (o : Option.t) (tok : option string)
    (ctx : Context.t) (idx : nat) (col : gmap string (list value)) :
  In o (Command.options cmd) ->
  (exists ctx', Parser.store o tok ctx = Ok ctx' /\
                Loop.step cmd (ctx, idx, col) (ctx', idx, col) /\
                Context.arguments ctx' = Context.arguments ctx) \/
  (exists s e, Parser.store o tok ctx = Raise e /\ Loop.raised_on cmd s e).
Proof.
  intros Hin. unfold Parser.store.
  destruct (Parser._convert tok (Option.type o)) as [v|e] eqn:E.
  - left. eexists. split; [reflexivity|]. split; [|done].
    by eapply Loop.step_store.
  - right. apply convert_raises_call in E as (tname & call & s & Ht & _ & Hc).
    exists s, e. split; [reflexivity|]. exists tname, call. split; [done|].
    left. eauto.
Qed.

Lemma store_long_cases (cmd : Command.t) (key : string) (tok : option string)
    (ctx : Context.t) (idx : nat) (col : gmap string (list value)) :
  (exists ctx', Parser.store_long cmd key tok ctx = Ok ctx' /\
                Loop.step cmd (ctx, idx, col) (ctx', idx, col) /\
                Context.arguments ctx' = Context.arguments ctx) \/
  (exists s e, Parser.store_long cmd key tok ctx = Raise e /\
               Loop.raised_on cmd s e).
Proof.
  unfold Parser.store_long, Parser._find_option.
  destruct (Parser.find_by_name key (Command.options cmd)) as [o|] eqn:E.
  - apply find_by_name_name in E as [_ Hin]. by apply store_cases.
  - left. eexists. split; [reflexivity|]. split; [constructor|done].
Qed.

Local Ltac flag_turn :=
  split; [first [done|constructor]|]; split; [simpl; lia|];
  split; [|done]; left; by split.

(** One turn of the loop on the token [arg]: it goes on from a state that
    one [step] reaches, on a shorter rest of the stream; or it raises the
    exception that a declared type raised on a string; or [arg] is a bare token that names a
    subcommand, and the loop delegates. *)
Lemma loop_iteration (cmd : Command.t) (ctx : Context.t) (idx : nat)
    (col : gmap string (list value)) (arg : string) (rest : list string) :
  (exists st' rest',
     Loop.step cmd (ctx, idx, col) st' /\
     length rest' <= length rest /\
     (Positional.positionals cmd (arg :: rest) = Positional.positionals cmd rest' /\
      Loop.kept (ctx, idx, col) st' \/
      Dict.get arg (Command.subcommands cmd) = None /\
      Positional.positionals cmd (arg :: rest)
      = arg :: Positional.positionals cmd rest' /\
      Loop.took cmd arg (ctx, idx, col) st') /\
     Parser.loop cmd ctx idx col (arg :: rest) = Prefix.resume cmd st' rest') \/
  (exists s e,
     Loop.raised_on cmd s e /\
     Parser.loop cmd ctx idx col (arg :: rest) = Raise e) \/
  (exists sub,
     Prefix.bare arg = true /\
     Dict.get arg (Command.subcommands cmd) = Some sub /\
     Positional.positionals cmd (arg :: rest)
     = arg :: Positional.positionals cmd rest /\
     Parser.loop cmd ctx idx col (arg :: rest)
     = try! r := Parser.parse sub rest in Ok (Context.set_parent ctx r)).
Proof.
  cbn [Parser.loop Positional.positionals]. cbv zeta.
  unfold Prefix.bare.
  destruct (Str.startswith "--" arg).
  - generalize (Str.drop 2 arg). intros key0.
    destruct (Str.split_first "=" key0) as [[key v]|].
    + destruct (store_long_cases cmd key (Some v) ctx idx col)
        as [(ctx' & -> & Hs & Ha)|(tname & s & -> & Hrej)].
      * left. exists (ctx', idx, col), rest. flag_turn.
      * right. left. by exists tname, s.
    + destruct rest as [|v rest'].
      * destruct (store_long_cases cmd key0 None ctx idx col)
          as [(ctx' & -> & Hs & Ha)|(tname & s & -> & Hrej)].
        -- left. exists (ctx', idx, col), []. flag_turn.
        -- right. left. by exists tname, s.
      * destruct (store_long_cases cmd key0 (Some v) ctx idx col)
          as [(ctx' & -> & Hs & Ha)|(tname & s & -> & Hrej)].
        -- left. exists (ctx', idx, col), rest'. flag_turn.
        -- right. left. by exists tname, s.
  - destruct (Str.startswith "-" arg && (String.length arg =? 2)%nat).
    + generalize (Str.item 1 arg). intros short.
      destruct (Parser._find_option_short cmd short) as [o|] eqn:Ef.
      * apply find_by_short_In in Ef.
        destruct rest as [|v rest'].
        -- destruct (store_cases cmd o None ctx idx col Ef)
             as [(ctx' & -> & Hs & Ha)|(tname & s & -> & Hrej)].
           ++ left. exists (ctx', idx, col), []. flag_turn.
           ++ right. left. by exists tname, s.
        -- destruct (store_cases cmd o (Some v) ctx idx col Ef)
             as [(ctx' & -> & Hs & Ha)|(tname & s & -> & Hrej)].
           ++ left. exists (ctx', idx, col), rest'. flag_turn.
           ++ right. left. by exists tname, s.
      * left. exists (ctx, idx, col), rest. flag_turn.
    + destruct (Dict.get arg (Command.subcommands cmd)) as [sub|] eqn:Es.
      * right. right. by exists sub.
      * unfold Loop.took. cbn [fst snd].
        destruct (Command.arguments cmd !! idx) as [a|] eqn:Ea.
        -- destruct (Parser._convert (Some arg) (Argument.type a)) as [v|e] eqn:Ec.
           ++ left. cbn [bind]. unfold Positional.variadic.
              destruct (Str.mem (Argument.nargs a) ["*"; "+"]) eqn:Ev.
              ** exists (ctx, idx, Parser.collect (Argument.name a) v col), rest.
                 split; [by eapply Loop.step_collect|].
                 split; [done|]. split; [|done]. right. eauto.
              ** exists (Context.set_argument (Argument.name a) v ctx, S idx, col), rest.
                 split; [by eapply Loop.step_bind|].
                 split; [done|]. split; [|done]. right. eauto.
           ++ right. left.
              apply convert_raises_call in Ec
                as (tname & call & s & Ht & _ & Hc).
              exists s, e. split; [|reflexivity].
              exists tname, call. split; [done|]. right. exists a. split; [|done].
              apply list_elem_of_In. by apply (list_elem_of_lookup_2 _ idx).
        -- left. exists (ctx, idx, col), rest. split; [constructor|].
           split; [done|]. split; [|done]. right. auto.
Qed.

Lemma accepts_not_raised (c : Command.t) (s : string) (e : exn) :
  Forall (fun o => Loop.accepts_all (Option.type o)) (Command.options c) ->
  Forall (fun a => Loop.accepts_all (Argument.type a)) (Command.arguments c) ->
  ~ Loop.raised_on c s e.
Proof.
  intros Ho Ha (tname & call & Hc & [(o & Hin & Ht)|(a & Hin & Ht)]).
  - apply list_elem_of_In in Hin.
    pose proof (proj1 (Forall_forall _ _) Ho o Hin) as Hacc.
    cbv beta in Hacc. rewrite Ht in Hacc. destruct (Hacc s) as [v Hv]. congruence.
  - apply list_elem_of_In in Hin.
    pose proof (proj1 (Forall_forall _ _) Ha a Hin) as Hacc.
    cbv beta in Hacc. rewrite Ht in Hacc. destruct (Hacc s) as [v Hv]. congruence.
Qed.

(** A loop that meets no name of a subcommand raises only what a type
    declared by its own command raised. *)
Lemma loop_raises_here (cmd : Command.t) (n : nat) :
  forall (args : list string) (ctx : Context.t) (idx : nat)
         (col : gmap string (list value)) (e : exn),
    length args <= n ->
    Forall (fun t => Dict.get t (Command.subcommands cmd) = None)
      (Positional.positionals cmd args) ->
    Parser.loop cmd ctx idx col args = Raise e ->
    exists s, Loop.raised_on cmd s e.
Proof.
  induction n as [|n IH]; intros args ctx idx col e Hlen Hpos Hl;
    (destruct args as [|arg rest]; [discriminate|]);
    [ simpl in Hlen; lia | ].
  simpl in Hlen.
  destruct (loop_iteration cmd ctx idx col arg rest)
    as [([[ctx' idx'] col'] & rest' & _ & Hlen' & Hp & He)
       |[(s & e' & Hrej & He)|(sub & _ & Hsub & Hp & He)]];
    rewrite He in Hl.
  - apply (IH rest' ctx' idx' col' e); [lia| |done].
    destruct Hp as [[Hp _]|(_ & Hp & _)]; rewrite Hp in Hpos; [done|].
    by apply Forall_cons in Hpos as [_ ?].
  - injection Hl as <-. by exists s.
  - rewrite Hp in Hpos. apply Forall_cons in Hpos as [Hnone _]. congruence.
Qed.

End Iteration.

(** ** The claims on [Parser.parse] *)

Section Parse.

(** C2. For every command (whose option names are pairwise distinct, and
    whose argument names are, as the data model requires), parsing the
    empty stream returns a context in which every declared option holds
    its declared default and every declared argument, variadic or not,
    holds its declared default. *)
Theorem C2_empty_stream_defaults (cmd : Command.t) :
  NoDup (map Option.name (Command.options cmd)) ->
  NoDup (map Argument.name (Command.arguments cmd)) ->
  exists ctx,
    Parser.parse cmd [] = Ok ctx /\
    (forall o, In o (Command.options cmd) ->
       Context.options ctx !! Option.name o = Some (Option.default o)) /\
    (forall a, In a (Command.arguments cmd) ->
       Context.arguments ctx !! Argument.name a = Some (Argument.default a)).
Proof.
  intros Ho Ha. eexists. split; [reflexivity|]. split.
  - intros o Hin. rewrite finish_options. simpl. rewrite lookup_empty.
    unfold Parser._find_option. by rewrite find_by_name_NoDup.
  - intros a Hin. rewrite finish_arguments. simpl. rewrite !lookup_empty.
    by rewrite find_argument_NoDup.
Qed.

Lemma C2_empty_stream_defaults_witness :
  NoDup (map Option.name (Command.options Examples.greet)) /\
  NoDup (map Argument.name (Command.arguments Examples.greet)) /\
  exists ctx,
    Parser.parse Examples.greet [] = Ok ctx /\
    (forall o, In o (Command.options Examples.greet) ->
       Context.options ctx !! Option.name o = Some (Option.default o)) /\
    (forall a, In a (Command.arguments Examples.greet) ->
       Context.arguments ctx !! Argument.name a = Some (Argument.default a)).
Proof.
  assert (Ho : NoDup (map Option.name (Command.options Examples.greet)))
    by (by apply (bool_decide_unpack _)).
  assert (Ha : NoDup (map Argument.name (Command.arguments Examples.greet)))
    by (by apply (bool_decide_unpack _)).
  split; [exact Ho|]. split; [exact Ha|].
  exact (C2_empty_stream_defaults Examples.greet Ho Ha).
Defined.

(** The loop at a bare token that names a subcommand. *)
Lemma loop_delegates (cmd sub : Command.t) (ctx : Context.t) (idx : nat)
    (col : gmap string (list value)) (arg : string) (rest : list string) :
  Prefix.bare arg = true ->
  Dict.get arg (Command.subcommands cmd) = Some sub ->
  Parser.loop cmd ctx idx col (arg :: rest) =
  try! sub_ctx := Parser.parse sub rest in Ok (Context.set_parent ctx sub_ctx).
Proof.
  intros Hb Hs. apply bare_spec in Hb as [H1 H2].
  cbn [Parser.loop]. by rewrite H1, H2, Hs.
Qed.

(** C1. When the parser, having read the tokens [pre] of the stream,
    stands in its loop with context [ctx] and positional index [idx] and
    meets a bare token that names a subcommand [sub], the remaining tokens
    are parsed against [sub] and nothing more is read at this level: when
    that parse returns [sub_ctx], the whole parse returns a context whose
    [parent] is [ctx], the context as it stood before the token, and whose
    command, options and arguments are those of [sub_ctx]; when it raises,
    the whole parse raises the same exception.  Nothing is asked of [idx]:
    the token is not bound to the argument at that position, filled or
    not. *)
Theorem C1_subcommand_delegation (cmd sub : Command.t) (pre rest : list string)
    (arg : string) (ctx : Context.t) (idx : nat) (col : gmap string (list value)) :
  Prefix.reads cmd (Prefix.start cmd) pre = Some (ctx, idx, col) ->
  Prefix.bare arg = true ->
  Dict.get arg (Command.subcommands cmd) = Some sub ->
  (forall sub_ctx,
     Parser.parse sub rest = Ok sub_ctx ->
     exists r,
       Parser.parse cmd (pre ++ arg :: rest) = Ok r /\
       Context.parent r = Some ctx /\
       Context.command r = Context.command sub_ctx /\
       Context.options r = Context.options sub_ctx /\
       Context.arguments r = Context.arguments sub_ctx) /\
  (forall e,
     Parser.parse sub rest = Raise e ->
     Parser.parse cmd (pre ++ arg :: rest) = Raise e).
Proof.
  intros Hr Hb Hs. rewrite (parse_reads _ _ _ _ Hr). cbn [Prefix.resume].
  rewrite (loop_delegates _ _ _ _ _ _ _ Hb Hs). split.
  - intros sub_ctx ->. by exists (Context.set_parent ctx sub_ctx).
  - by intros e ->.
Qed.

(** At the second token, with the positional [target] of the root still
    unfilled: the result is the context of [greet] with the argument
    [greeting] bound, its parent is the context of the root with the one
    option stored so far, and [target] is bound in neither; with a
    literal that [int] rejects after the name of the subcommand, the
    whole parse raises the error of the child. *)
Lemma C1_subcommand_delegation_witness :
  let ctx := Context.set_option "verbose" (VBool true)
               (Context.set_command Examples.root Context.new) in
  Prefix.reads Examples.root (Prefix.start Examples.root) ["--verbose=yes"]
    = Some (ctx, 0%nat, ∅) /\
  (exists a, Command.arguments Examples.root !! 0%nat = Some a /\
             Argument.name a = "target") /\
  (exists r,
     Parser.parse Examples.root (["--verbose=yes"] ++ "greet" :: ["Ada"]) = Ok r /\
     Context.parent r = Some ctx /\
     Context.command r = Some Examples.greet /\
     Context.arguments r !! "greeting" = Some (VStr "Ada") /\
     Context.arguments r !! "target" = None /\
     Context.options r !! "verbose" = None /\
     Context.options ctx !! "verbose" = Some (VBool true) /\
     Context.arguments ctx !! "target" = None) /\
  Parser.parse Examples.root (["--verbose=yes"] ++ "greet" :: ["--count"; "x"])
    = Raise (ValueError "int" "x").
Proof.
  intros ctx.
  assert (Prefix.reads Examples.root (Prefix.start Examples.root) ["--verbose=yes"]
          = Some (ctx, 0%nat, ∅)) as Hreads by reflexivity.
  split; [exact Hreads|]. split; [eexists; split; reflexivity|]. split.
  - destruct (proj1 (C1_subcommand_delegation Examples.root Examples.greet
                       ["--verbose=yes"] ["Ada"] "greet" ctx 0%nat ∅
                       Hreads eq_refl eq_refl)
                (Parser.finish Examples.greet
                   (Context.set_argument "greeting" (VStr "Ada")
                      (Context.set_command Examples.greet Context.new)) ∅)
                eq_refl)
      as (r & Hr & Hp & Hc & Ho & Ha).
    exists r. split; [exact Hr|]. split; [exact Hp|].
    rewrite Hc, Ho, Ha.
    destruct (finish_frame Examples.greet
                (Context.set_argument "greeting" (VStr "Ada")
                   (Context.set_command Examples.greet Context.new)) ∅)
      as [_ ->].
    rewrite !finish_arguments, finish_options. repeat split.
  - exact (proj2 (C1_subcommand_delegation Examples.root Examples.greet
                    ["--verbose=yes"] ["--count"; "x"] "greet" ctx 0%nat ∅
                    Hreads eq_refl eq_refl)
             (ValueError "int" "x") eq_refl).
Defined.

(** The loop at a long flag that is the last token. *)
Lemma loop_trailing_flag (cmd : Command.t) (ctx : Context.t) (idx : nat)
    (col : gmap string (list value)) (key : string) :
  Str.contains "=" key = false ->
  Parser.loop cmd ctx idx col [("--" ++ key)%string] =
  try! ctx' := Parser.store_long cmd key None ctx in
  Ok (Parser.finish cmd ctx' col).
Proof.
  intros Hk. cbn [Parser.loop]. cbv zeta.
  by rewrite startswith_long, drop_long, (contains_false _ Hk).
Qed.

(** C10. When the parser, having read the tokens [pre], meets the flag
    [--key] of a declared option as the last token of the stream, written
    without [=], the parse returns a context whose options hold [None]
    under [key], whatever default the option declares: [Context.get]
    returns [None] and not the default of the caller either. *)
Theorem C10_trailing_flag_is_None (cmd : Command.t) (pre : list string)
    (key : string) (o : Option.t) (st : Prefix.state) :
  Prefix.reads cmd (Prefix.start cmd) pre = Some st ->
  Str.contains "=" key = false ->
  In o (Command.options cmd) ->
  Option.name o = key ->
  exists r,
    Parser.parse cmd (pre ++ [("--" ++ key)%string]) = Ok r /\
    Context.options r !! key = Some VNone /\
    forall d, Context.get key d r = VNone.
Proof.
  intros Hr Hk Hin Hname. rewrite (parse_reads _ _ _ _ Hr).
  destruct st as [[ctx idx] col]. cbn [Prefix.resume].
  rewrite (loop_trailing_flag _ _ _ _ _ Hk).
  destruct (find_by_name_is_Some key (Command.options cmd)) as [o' Ho'].
  { rewrite <- Hname. by apply in_map. }
  unfold Parser.store_long, Parser._find_option. rewrite Ho'.
  apply find_by_name_name in Ho' as [Hn' _].
  unfold Parser.store. cbn [Parser._convert bind]. rewrite Hn'.
  eexists. split; [reflexivity|].
  assert (Hl : Context.options
                 (Parser.finish cmd (Context.set_option key VNone ctx) col) !! key
               = Some VNone).
  { rewrite finish_options. simpl. by rewrite lookup_insert_eq. }
  split; [exact Hl|]. intros d. unfold Context.get. by rewrite Hl.
Qed.

(** The option [name] of [greet] declares the default ["World"]. *)
Lemma C10_trailing_flag_is_None_witness :
  Prefix.reads Examples.greet (Prefix.start Examples.greet) ["Hi"] =
    Some (Context.set_argument "greeting" (VStr "Hi")
            (Context.set_command Examples.greet Context.new), 1%nat, ∅) /\
  Str.contains "=" "name" = false /\
  exists r,
    Parser.parse Examples.greet (["Hi"] ++ [("--" ++ "name")%string]) = Ok r /\
    Context.options r !! "name" = Some VNone /\
    forall d, Context.get "name" d r = VNone.
Proof.
  split; [reflexivity|]. split; [reflexivity|].
  apply (C10_trailing_flag_is_None Examples.greet ["Hi"] "name"
           (Option.mk "name" "n" py_str (VStr "World") false "" false)
           (Context.set_argument "greeting" (VStr "Hi")
              (Context.set_command Examples.greet Context.new), 1%nat, ∅)).
  - reflexivity.
  - reflexivity.
  - simpl. auto.
  - reflexivity.
Defined.

(** The loop at a long flag, in its two spellings. *)
Lemma loop_long_two_tokens (cmd : Command.t) (ctx : Context.t) (idx : nat)
    (col : gmap string (list value)) (key v : string) (post : list string) :
  Str.contains "=" key = false ->
  Parser.loop cmd ctx idx col (("--" ++ key)%string :: v :: post) =
  try! ctx' := Parser.store_long cmd key (Some v) ctx in
  Parser.loop cmd ctx' idx col post.
Proof.
  intros Hk. cbn [Parser.loop]. cbv zeta.
  by rewrite startswith_long, drop_long, (contains_false _ Hk).
Qed.

Lemma loop_long_one_token (cmd : Command.t) (ctx : Context.t) (idx : nat)
    (col : gmap string (list value)) (key v : string) (post : list string) :
  Str.contains "=" key = false ->
  Parser.loop cmd ctx idx col (("--" ++ key ++ "=" ++ v)%string :: post) =
  try! ctx' := Parser.store_long cmd key (Some v) ctx in
  Parser.loop cmd ctx' idx col post.
Proof.
  intros Hk. cbn [Parser.loop]. cbv zeta.
  rewrite startswith_long, drop_long.
  change (key ++ "=" ++ v)%string with (key ++ String "=" v)%string.
  by rewrite (split_first_None_app _ _ (contains_false _ Hk)).
Qed.

(** C3. Where the parser, having read the tokens [pre], meets a long
    flag for [key], a name written without [=], the spelling in two
    tokens [--key v] and the spelling in one token [--key=v] give the
    same result of the parse, whatever follows: the same context, hence
    the same value under every option, or the same exception. *)
Theorem C3_long_forms_agree (cmd : Command.t) (pre post : list string)
    (key v : string) (st : Prefix.state) :
  Prefix.reads cmd (Prefix.start cmd) pre = Some st ->
  Str.contains "=" key = false ->
  Parser.parse cmd (pre ++ ("--" ++ key)%string :: v :: post) =
  Parser.parse cmd (pre ++ ("--" ++ key ++ "=" ++ v)%string :: post).
Proof.
  intros Hr Hk. rewrite !(parse_reads _ _ _ _ Hr).
  destruct st as [[ctx idx] col]. cbn [Prefix.resume].
  by rewrite loop_long_two_tokens, loop_long_one_token.
Qed.

Lemma C3_long_forms_agree_witness :
  Prefix.reads Examples.greet (Prefix.start Examples.greet) ["-n"; "Ada"] =
    Some (Context.set_option "name" (VStr "Ada")
            (Context.set_command Examples.greet Context.new), 0%nat, ∅) /\
  Str.contains "=" "count" = false /\
  Parser.parse Examples.greet (["-n"; "Ada"] ++ ("--" ++ "count")%string :: "3" :: ["Hi"]) =
  Parser.parse Examples.greet
    (["-n"; "Ada"] ++ ("--" ++ "count" ++ "=" ++ "3")%string :: ["Hi"]).
Proof.
  split; [reflexivity|]. split; [reflexivity|].
  apply (C3_long_forms_agree Examples.greet ["-n"; "Ada"] ["Hi"] "count" "3"
           (Context.set_option "name" (VStr "Ada")
              (Context.set_command Examples.greet Context.new), 0%nat, ∅));
    reflexivity.
Defined.

(** C8. Where the parser, having read the tokens [pre], meets [--bogus],
    a name written without [=] that no option of the command declares,
    that token and the one after it are dropped: the parse of the stream
    with the two tokens is the parse of the stream without them. *)
Theorem C8_unknown_long_option_dropped (cmd : Command.t) (pre post : list string)
    (bogus v : string) (st : Prefix.state) :
  Prefix.reads cmd (Prefix.start cmd) pre = Some st ->
  Str.contains "=" bogus = false ->
  ~ In bogus (map Option.name (Command.options cmd)) ->
  Parser.parse cmd (pre ++ ("--" ++ bogus)%string :: v :: post) =
  Parser.parse cmd (pre ++ post).
Proof.
  intros Hr Hk Hnot. rewrite !(parse_reads _ _ _ _ Hr).
  destruct st as [[ctx idx] col]. cbn [Prefix.resume].
  rewrite loop_long_two_tokens by done.
  unfold Parser.store_long, Parser._find_option.
  destruct (Parser.find_by_name bogus (Command.options cmd)) as [o|] eqn:E;
    [|reflexivity].
  apply find_by_name_name in E as [<- Hin].
  exfalso. apply Hnot. by apply in_map.
Qed.

Lemma C8_unknown_long_option_dropped_witness :
  Prefix.reads Examples.greet (Prefix.start Examples.greet) ["--name"; "Ada"] =
    Some (Context.set_option "name" (VStr "Ada")
            (Context.set_command Examples.greet Context.new), 0%nat, ∅) /\
  Str.contains "=" "bogus" = false /\
  ~ In "bogus" (map Option.name (Command.options Examples.greet)) /\
  Parser.parse Examples.greet
    (["--name"; "Ada"] ++ ("--" ++ "bogus")%string :: "value" :: ["--count"; "3"]) =
  Parser.parse Examples.greet (["--name"; "Ada"] ++ ["--count"; "3"]).
Proof.
  assert (Hnot : ~ In "bogus" (map Option.name (Command.options Examples.greet)))
    by (simpl; intuition discriminate).
  split; [reflexivity|]. split; [reflexivity|]. split; [exact Hnot|].
  apply (C8_unknown_long_option_dropped Examples.greet ["--name"; "Ada"]
           ["--count"; "3"] "bogus" "value"
           (Context.set_option "name" (VStr "Ada")
              (Context.set_command Examples.greet Context.new), 0%nat, ∅));
    [reflexivity | reflexivity | exact Hnot].
Defined.

Lemma after_cons (o : Option.t) (tok : option string) (v : value)
    (fl : list (Option.t * option string)) (k : string) (base : option value) :
  Filled.value_of (o, tok) = Some v ->
  Filled.after ((o, tok) :: fl) k base
  = Filled.after fl k (if String.eqb (Option.name o) k then Some v else base).
Proof.
  intros Hv. unfold Filled.after. cbn [Filled.last_for fst].
  destruct (Filled.last_for k fl); [done|].
  by destruct (String.eqb (Option.name o) k).
Qed.

Lemma set_option_lookup (n k : string) (v : value) (ctx : Context.t) :
  Context.options (Context.set_option n v ctx) !! k
  = if String.eqb n k then Some v else Context.options ctx !! k.
Proof.
  cbn [Context.set_option Context.options].
  destruct (String.eqb_spec n k) as [->|Hne].
  - by rewrite lookup_insert_eq.
  - by rewrite lookup_insert_ne.
Qed.

Lemma store_value (o : Option.t) (tok : option string) (ctx ctx' : Context.t) :
  Parser.store o tok ctx = Ok ctx' ->
  exists v, Filled.value_of (o, tok) = Some v /\
            ctx' = Context.set_option (Option.name o) v ctx.
Proof.
  unfold Parser.store, Filled.value_of. cbn [fst snd].
  destruct (Parser._convert tok (Option.type o)) as [v|e]; [|discriminate].
  intros [= <-]. by exists v.
Qed.

(** Storing one more flag ahead of the loop. *)
Lemma returns_stored (cmd : Command.t) (ctx : Context.t) (o : Option.t)
    (tok : option string) (v : value) (fl : list (Option.t * option string))
    (d : option (Command.t * list string)) (r : Context.t) :
  Filled.value_of (o, tok) = Some v ->
  Filled.returns cmd (Context.set_option (Option.name o) v ctx) fl d r ->
  Filled.returns cmd ctx ((o, tok) :: fl) d r.
Proof.
  intros Hv. unfold Filled.returns. destruct d as [[c lvl]|].
  - intros (Hc & Hin & Ho & p & Hp & Hpc & Hpp & Hpo).
    split; [done|]. split; [done|]. split; [done|]. exists p. split; [done|].
    split; [done|]. split; [done|]. intros k.
    by rewrite Hpo, (after_cons _ _ _ _ _ _ Hv), set_option_lookup.
  - intros (Hc & Hp & Hin & Ho). split; [done|]. split; [done|].
    split; [done|]. intros k.
    rewrite Ho, (after_cons _ _ _ _ _ _ Hv), set_option_lookup.
    by destruct (String.eqb (Option.name o) k).
Qed.

Lemma returns_stored_long (cmd : Command.t) (ctx ctx' : Context.t) (key : string)
    (tok : option string) (fl : list (Option.t * option string))
    (d : option (Command.t * list string)) (r : Context.t) :
  Parser.store_long cmd key tok ctx = Ok ctx' ->
  Filled.returns cmd ctx' fl d r ->
  Filled.returns cmd ctx (Filled.found (Parser._find_option cmd key) tok ++ fl) d r.
Proof.
  unfold Parser.store_long.
  destruct (Parser._find_option cmd key) as [o|]; cbn [Filled.found app].
  - intros Hs. apply store_value in Hs as (v & Hv & ->). by apply returns_stored.
  - by intros [= <-].
Qed.

Lemma returns_argument (cmd : Command.t) (ctx : Context.t) (n : string) (v : value)
    (fl : list (Option.t * option string))
    (d : option (Command.t * list string)) (r : Context.t) :
  Filled.returns cmd (Context.set_argument n v ctx) fl d r ->
  Filled.returns cmd ctx fl d r.
Proof. done. Qed.

(** What a run of the loop returns, in terms of the flags ahead. *)
Lemma loop_returns (n : nat) :
  forall (args : list string) (cmd : Command.t) (ctx : Context.t) (idx : nat)
         (col : gmap string (list value)) (r : Context.t),
    length args <= n ->
    Parser.loop cmd ctx idx col args = Ok r ->
    Filled.returns cmd ctx (Filled.flags cmd args) (Filled.deepest cmd args) r.
Proof.
  assert (Hfin : forall cmd ctx col,
             Filled.returns cmd ctx [] None (Parser.finish cmd ctx col)).
  { intros cmd ctx col. destruct (finish_frame cmd ctx col) as [Hp Hc].
    split; [done|]. split; [done|]. split; [|intros k; by rewrite finish_options].
    intros o Hin. rewrite finish_options.
    destruct (Context.options ctx !! Option.name o); [done|].
    destruct (find_by_name_is_Some (Option.name o) (Command.options cmd))
      as [o' Ho']; [by apply in_map|].
    unfold Parser._find_option. by rewrite Ho'. }
  induction n as [|n IH]; intros args cmd ctx idx col r Hlen Hl;
    (destruct args as [|arg rest]; [ injection Hl as <-; apply Hfin | ]);
    [ simpl in Hlen; lia | ].
  simpl in Hlen. cbn [Parser.loop Filled.flags Filled.deepest] in Hl |- *.
  cbv zeta in Hl.
  destruct (Str.startswith "--" arg).
  - generalize dependent (Str.drop 2 arg). intros key0 Hl.
    destruct (Str.split_first "=" key0) as [[key v]|].
    + destruct (Parser.store_long cmd key (Some v) ctx) as [ctx'|e] eqn:E;
        [|discriminate].
      cbn [bind] in Hl. apply (returns_stored_long _ _ _ _ _ _ _ _ E).
      apply (IH rest cmd ctx' idx col r); [lia|done].
    + destruct rest as [|v rest'].
      * destruct (Parser.store_long cmd key0 None ctx) as [ctx'|e] eqn:E;
          [|discriminate].
        cbn [bind] in Hl. injection Hl as <-.
        rewrite <- (app_nil_r (Filled.found _ _)).
        apply (returns_stored_long _ _ _ _ _ _ _ _ E). apply Hfin.
      * destruct (Parser.store_long cmd key0 (Some v) ctx) as [ctx'|e] eqn:E;
          [|discriminate].
        cbn [bind] in Hl. simpl in Hlen.
        apply (returns_stored_long _ _ _ _ _ _ _ _ E).
        apply (IH rest' cmd ctx' idx col r); [lia|done].
  - destruct (Str.startswith "-" arg && (String.length arg =? 2)%nat).
    + generalize dependent (Str.item 1 arg). intros short Hl.
      destruct (Parser._find_option_short cmd short) as [o|].
      * destruct rest as [|v rest'].
        -- destruct (Parser.store o None ctx) as [ctx'|e] eqn:E; [|discriminate].
           cbn [bind] in Hl. injection Hl as <-.
           apply store_value in E as (w & Hw & ->).
           apply (returns_stored _ _ _ _ _ _ _ _ Hw). apply Hfin.
        -- destruct (Parser.store o (Some v) ctx) as [ctx'|e] eqn:E; [|discriminate].
           cbn [bind] in Hl. simpl in Hlen.
           apply store_value in E as (w & Hw & ->).
           apply (returns_stored _ _ _ _ _ _ _ _ Hw).
           apply (IH rest' cmd (Context.set_option (Option.name o) w ctx)
                    idx col r); [lia|done].
      * apply (IH rest cmd ctx idx col r); [lia|done].
    + destruct (Dict.get arg (Command.subcommands cmd)) as [sub|].
      * destruct (Parser.loop sub (Context.set_command sub Context.new) 0 ∅ rest)
          as [sub_ctx|e] eqn:E; [|discriminate].
        cbn [bind] in Hl. injection Hl as <-.
        pose proof (IH rest sub (Context.set_command sub Context.new) 0%nat ∅
                      sub_ctx ltac:(lia) E) as Hsub.
        unfold Filled.returns in Hsub |- *.
        destruct (Filled.deepest sub rest) as [[c lvl]|].
        -- destruct Hsub as (Hc & Hin & Ho & _).
           split; [done|]. split; [done|]. split; [done|]. by exists ctx.
        -- destruct Hsub as (Hc & _ & Hin & Ho).
           split; [done|]. split; [done|]. split.
           ++ intros k. cbn [Context.set_parent Context.options].
              rewrite Ho. unfold Filled.filled.
              cbn [Context.set_command Context.new Context.options].
              by rewrite lookup_empty.
           ++ by exists ctx.
      * destruct (Command.arguments cmd !! idx) as [arg_def|].
        -- destruct (Parser._convert (Some arg) (Argument.type arg_def)) as [v|e];
             [|discriminate].
           cbn [bind] in Hl.
           destruct (Str.mem (Argument.nargs arg_def) ["*"; "+"]).
           ++ apply (IH rest cmd ctx idx
                       (Parser.collect (Argument.name arg_def) v col) r); [lia|done].
           ++ apply (returns_argument _ _ (Argument.name arg_def) v).
              apply (IH rest cmd
                       (Context.set_argument (Argument.name arg_def) v ctx)
                       (S idx) col r); [lia|done].
        -- apply (IH rest cmd ctx idx col r); [lia|done].
Qed.

(** C5, as the code has it.  The context that a parse returns belongs to
    the command at which the chain of delegations ends, and its options
    are fully populated: every option declared on that command is a key,
    and under every name the options hold the converted value of the last
    flag given for it among the tokens of that level, or else the default
    of the declaration.  Its parent, when the parser delegated, is the
    partial context of the parser that the parse started with: its
    options hold the values of the flags that stand before the name of
    the subcommand and nothing else; no default is applied to it. *)
Theorem C5_returned_context_populated (cmd : Command.t) (args : list string)
    (r : Context.t) :
  Parser.parse cmd args = Ok r ->
  Context.command r = Some (fst (Filled.level cmd args)) /\
  (forall o, In o (Command.options (fst (Filled.level cmd args))) ->
             is_Some (Context.options r !! Option.name o)) /\
  (forall n, Context.options r !! n
             = Filled.filled (fst (Filled.level cmd args))
                 (snd (Filled.level cmd args)) n) /\
  (forall p, Context.parent r = Some p ->
     Context.command p = Some cmd /\
     Context.parent p = None /\
     forall n, Context.options p !! n = Filled.stored cmd args n).
Proof.
  intros H.
  pose proof (loop_returns (length args) args cmd
                (Context.set_command cmd Context.new) 0%nat ∅ r
                ltac:(lia) H) as Hret.
  unfold Filled.returns, Filled.level in *.
  destruct (Filled.deepest cmd args) as [[c lvl]|]; cbn [fst snd].
  - destruct Hret as (Hc & Hin & Ho & p & Hp & Hpc & Hpp & Hpo).
    split; [done|]. split; [done|]. split; [done|].
    intros p'. rewrite Hp. intros [= <-].
    split; [done|]. split; [done|]. intros n. rewrite Hpo.
    unfold Filled.stored.
    cbn [Context.set_command Context.new Context.options].
    by rewrite lookup_empty.
  - destruct Hret as (Hc & Hp & Hin & Ho).
    split; [done|]. split; [done|]. split.
    + intros n. rewrite Ho. unfold Filled.filled.
      cbn [Context.set_command Context.new Context.options].
      by rewrite lookup_empty.
    + intros p. rewrite Hp. discriminate.
Qed.

(** The root stores one flag and delegates to [greet], which is given the
    option [count] twice, by its long and by its short name: the result
    holds the later value for [count] and the default for [name]; its
    parent holds [verbose] and no default. *)
Lemma C5_returned_context_populated_witness :
  let args := ["--verbose"; "yes"; "greet"; "--count"; "2"; "-c"; "3"] in
  let p := Context.set_option "verbose" (VBool true)
             (Context.set_command Examples.root Context.new) in
  let r := Context.set_parent p
             (Parser.finish Examples.greet
                (Context.set_option "count" (VInt 3)
                   (Context.set_option "count" (VInt 2)
                      (Context.set_command Examples.greet Context.new))) ∅) in
  Parser.parse Examples.root args = Ok r /\
  Filled.level Examples.root args
    = (Examples.greet, ["--count"; "2"; "-c"; "3"]) /\
  Context.command r = Some Examples.greet /\
  Context.options r !! "count" = Some (VInt 3) /\
  Context.options r !! "name" = Some (VStr "World") /\
  Context.options r !! "verbose" = None /\
  Context.parent r = Some p /\
  Context.options p !! "verbose" = Some (VBool true) /\
  Context.options p !! "count" = None.
Proof.
  intros args p r.
  assert (H : Parser.parse Examples.root args = Ok r) by reflexivity.
  destruct (C5_returned_context_populated _ _ _ H) as (Hc & _ & Ho & Hp).
  destruct (Hp p eq_refl) as (_ & _ & Hpo).
  split; [exact H|]. split; [reflexivity|]. split; [exact Hc|].
  rewrite !Ho, !Hpo. repeat split.
Defined.

(** C5 as stated fails on a parent context: after the delegation to
    [greet], the context of the root is the parent of the result and its
    options lack the declared option [verbose]. *)
Lemma C5_parent_not_populated :
  exists r p,
    Parser.parse Examples.root ["greet"] = Ok r /\
    Context.parent r = Some p /\
    Context.command p = Some Examples.root /\
    In "verbose" (map Option.name (Command.options Examples.root)) /\
    Context.options p !! "verbose" = None.
Proof.
  exists (Context.set_parent (Context.set_command Examples.root Context.new)
            (Parser.finish Examples.greet
               (Context.set_command Examples.greet Context.new) ∅)),
         (Context.set_command Examples.root Context.new).
  repeat split. simpl. auto.
Qed.

(** The loop at a short flag of a declared option, and at a positional
    token. *)
Lemma loop_short_known (cmd : Command.t) (ctx : Context.t) (idx : nat)
    (col : gmap string (list value)) (c : ascii) (o : Option.t) (v : string)
    (post : list string) :
  c <> "-"%char ->
  Parser._find_option_short cmd (String c "") = Some o ->
  Parser.loop cmd ctx idx col (String "-" (String c "") :: v :: post) =
  try! ctx' := Parser.store o (Some v) ctx in
  Parser.loop cmd ctx' idx col post.
Proof.
  intros Hc Ho. cbn [Parser.loop]. cbv zeta.
  assert (Hl : Str.startswith "--" (String "-" (String c "")) = false).
  { cbn [Str.startswith].
    replace (Ascii.eqb "-" c) with false; [reflexivity|].
    symmetry. apply Ascii.eqb_neq. congruence. }
  rewrite Hl.
  change (Str.startswith "-" (String "-" (String c ""))
          && (String.length (String "-" (String c "")) =? 2)%nat) with true.
  change (Str.item 1 (String "-" (String c ""))) with (String c "").
  cbv iota. by rewrite Ho.
Qed.

Lemma loop_positional (cmd : Command.t) (ctx : Context.t) (idx : nat)
    (col : gmap string (list value)) (tok : string) (a : Argument.t)
    (rest : list string) :
  Prefix.bare tok = true ->
  Dict.get tok (Command.subcommands cmd) = None ->
  Command.arguments cmd !! idx = Some a ->
  Parser.loop cmd ctx idx col (tok :: rest) =
  try! v := Parser._convert (Some tok) (Argument.type a) in
  if Str.mem (Argument.nargs a) ["*"; "+"] then
    Parser.loop cmd ctx idx (Parser.collect (Argument.name a) v col) rest
  else
    Parser.loop cmd (Context.set_argument (Argument.name a) v ctx) (S idx) col rest.
Proof.
  intros Hb Hs Ha. apply bare_spec in Hb as [H1 H2].
  cbn [Parser.loop]. by rewrite H1, H2, Hs, Ha.
Qed.

Lemma convert_rejected (tname tok : string) (call : string -> option value) :
  call tok = None ->
  Parser._convert (Some tok) (TCallable tname call) = Raise (ValueError tname tok).
Proof. intros H. simpl. by rewrite H. Qed.

(** C6, as the code has it.  When the type of an option or of an argument
    is a callable that rejects the token (the literal is malformed for
    [int] or for [float]), the parse raises the [ValueError] of that call:
    it carries the token and the name of the type, and nothing else.  This
    holds for an option given as [--key tok], as [--key=tok] or as
    [-c tok], and for a positional token. *)
Theorem C6_malformed_literal_raises (cmd : Command.t) (pre post : list string)
    (tok tname : string) (call : string -> option value)
    (ctx : Context.t) (idx : nat) (col : gmap string (list value)) :
  Prefix.reads cmd (Prefix.start cmd) pre = Some (ctx, idx, col) ->
  call tok = None ->
  (forall key o,
     Str.contains "=" key = false ->
     Parser._find_option cmd key = Some o ->
     Option.type o = TCallable tname call ->
     Parser.parse cmd (pre ++ ("--" ++ key)%string :: tok :: post)
       = Raise (ValueError tname tok) /\
     Parser.parse cmd (pre ++ ("--" ++ key ++ "=" ++ tok)%string :: post)
       = Raise (ValueError tname tok)) /\
  (forall c o,
     c <> "-"%char ->
     Parser._find_option_short cmd (String c "") = Some o ->
     Option.type o = TCallable tname call ->
     Parser.parse cmd (pre ++ String "-" (String c "") :: tok :: post)
       = Raise (ValueError tname tok)) /\
  (forall a,
     Prefix.bare tok = true ->
     Dict.get tok (Command.subcommands cmd) = None ->
     Command.arguments cmd !! idx = Some a ->
     Argument.type a = TCallable tname call ->
     Parser.parse cmd (pre ++ tok :: post) = Raise (ValueError tname tok)).
Proof.
  intros Hr Hcall. split; [|split].
  - intros key o Hk Ho Ht.
    rewrite !(parse_reads _ _ _ _ Hr). cbn [Prefix.resume].
    rewrite loop_long_two_tokens, loop_long_one_token by done.
    unfold Parser.store_long, Parser.store. rewrite Ho, Ht.
    by rewrite (convert_rejected _ _ _ Hcall).
  - intros c o Hc Ho Ht.
    rewrite (parse_reads _ _ _ _ Hr). cbn [Prefix.resume].
    rewrite (loop_short_known _ _ _ _ _ _ _ _ Hc Ho).
    unfold Parser.store. rewrite Ht.
    by rewrite (convert_rejected _ _ _ Hcall).
  - intros a Hb Hs Ha Ht.
    rewrite (parse_reads _ _ _ _ Hr). cbn [Prefix.resume].
    rewrite (loop_positional _ _ _ _ _ _ _ Hb Hs Ha). rewrite Ht.
    by rewrite (convert_rejected _ _ _ Hcall).
Qed.

Lemma C6_malformed_literal_raises_witness :
  Int.parse "abc" = None /\
  Parser.parse Examples.by_count ["--count"; "abc"] = Raise (ValueError "int" "abc") /\
  Parser.parse Examples.by_count ["--count=abc"] = Raise (ValueError "int" "abc").
Proof.
  split; [reflexivity|].
  refine (proj1 (C6_malformed_literal_raises Examples.by_count [] [] "abc" "int"
                   (fun s => VInt <$> Int.parse s)
                   (Context.set_command Examples.by_count Context.new) 0%nat ∅
                   _ _)
            "count" (Option.mk "count" "" py_int (VInt 1) false "" false) _ _ _);
    reflexivity.
Defined.

(** C6 as stated fails: two parses that differ only in the name of the
    option raise one and the same exception, a [ValueError] built from the
    type and the token, so the exception does not identify the option. *)
Lemma C6_error_does_not_name_the_option :
  Option.name <$> Command.options Examples.by_count = ["count"] /\
  Option.name <$> Command.options Examples.by_size = ["size"] /\
  Parser.parse Examples.by_count ["--count"; "abc"] = Raise (ValueError "int" "abc") /\
  Parser.parse Examples.by_size ["--size"; "abc"] = Raise (ValueError "int" "abc") /\
  forall (name_of : exn -> string) (e1 e2 : exn),
    Parser.parse Examples.by_count ["--count"; "abc"] = Raise e1 ->
    Parser.parse Examples.by_size ["--size"; "abc"] = Raise e2 ->
    ~ (name_of e1 = "count" /\ name_of e2 = "size").
Proof.
  do 4 (split; [reflexivity|]).
  intros name_of e1 e2 [= <-] [= <-] [H1 H2]. congruence.
Qed.

(** *** Variadic arguments *)

Lemma store_arguments (o : Option.t) (tok : option string) (ctx ctx' : Context.t) :
  Parser.store o tok ctx = Ok ctx' ->
  Context.arguments ctx' = Context.arguments ctx.
Proof.
  unfold Parser.store.
  destruct (Parser._convert tok (Option.type o)); [|discriminate].
  by intros [= <-].
Qed.

Lemma store_long_arguments (cmd : Command.t) (key : string) (tok : option string)
    (ctx ctx' : Context.t) :
  Parser.store_long cmd key tok ctx = Ok ctx' ->
  Context.arguments ctx' = Context.arguments ctx.
Proof.
  unfold Parser.store_long. destruct (Parser._find_option cmd key).
  - apply store_arguments.
  - by intros [= <-].
Qed.

Lemma bound_app (a : Argument.t) (l : list value) (v : value) (vs : list value) :
  Positional.bound a ((l ++ [v]) ++ vs) = Positional.bound a (l ++ v :: vs).
Proof. by rewrite <- app_assoc. Qed.

Section Variadic.

Variable cmd : Command.t.
Variable before : list Argument.t.
Variable va : Argument.t.

Hypothesis Hargs : Command.arguments cmd = before ++ [va].
Hypothesis Hva : Positional.variadic va = true.
Hypothesis Hbefore : Forall (fun a => Positional.variadic a = false) before.
Hypothesis Hname : ~ In (Argument.name va) (map Argument.name before).

Lemma find_variadic :
  Prefix.find_argument (Argument.name va) (Command.arguments cmd) = Some va.
Proof using Hargs Hname.
  rewrite Hargs. clear Hargs Hbefore.
  induction before as [|a l IH]; simpl.
  - by rewrite String.eqb_refl.
  - destruct (String.eqb_spec (Argument.name a) (Argument.name va)) as [E|_].
    + exfalso. apply Hname. simpl. auto.
    + apply IH. intros H. apply Hname. simpl. auto.
Qed.

Lemma finish_variadic (ctx : Context.t) (col : gmap string (list value)) :
  Context.arguments ctx !! Argument.name va = None ->
  col !! Argument.name va <> Some [] ->
  Context.arguments (Parser.finish cmd ctx col) !! Argument.name va
  = Some (Positional.bound va (default [] (col !! Argument.name va))).
Proof using Hargs Hname.
  intros Hctx Hcol. rewrite finish_arguments, Hctx, find_variadic.
  destruct (col !! Argument.name va) as [[|v l]|]; [done|done|done].
Qed.

(** The loop from a state in which no token has been bound under the name
    of the variadic argument except those collected for it: the positional
    tokens still to come fill the arguments declared before it, and all
    the others are converted and appended, in order. *)
Lemma loop_variadic (n : nat) :
  forall (args : list string) (ctx : Context.t) (idx : nat)
         (col : gmap string (list value)) (r : Context.t),
    length args <= n ->
    idx <= length before ->
    Context.arguments ctx !! Argument.name va = None ->
    (idx < length before -> col !! Argument.name va = None) ->
    col !! Argument.name va <> Some [] ->
    Forall (fun t => Dict.get t (Command.subcommands cmd) = None)
      (Positional.positionals cmd args) ->
    Parser.loop cmd ctx idx col args = Ok r ->
    exists vs,
      Forall2 (fun t v => Parser._convert (Some t) (Argument.type va) = Ok v)
        (drop (length before - idx) (Positional.positionals cmd args)) vs /\
      Context.arguments r !! Argument.name va
      = Some (Positional.bound va (default [] (col !! Argument.name va) ++ vs)).
Proof using Hargs Hva Hbefore Hname.
  induction n as [|n IH]; intros args ctx idx col r Hlen Hidx Hctx Hcol Hne Hsub Hl;
    (destruct args as [|arg rest];
     [ injection Hl as <-; exists []; split;
       [ cbn [Positional.positionals]; rewrite drop_nil; constructor
       | rewrite app_nil_r; by apply finish_variadic ]
     | ]);
    [ simpl in Hlen; lia | ].
  simpl in Hlen. cbn [Parser.loop] in Hl. cbv zeta in Hl.
  cbn [Positional.positionals] in Hsub |- *.
  destruct (Str.startswith "--" arg).
  - generalize dependent (Str.drop 2 arg). intros key0 Hsub Hl.
    destruct (Str.split_first "=" key0) as [[key v]|].
    + destruct (Parser.store_long cmd key (Some v) ctx) as [ctx'|e] eqn:E;
        [|discriminate].
      apply store_long_arguments in E. cbn [bind] in Hl.
      apply (IH rest ctx' idx col r); [lia|done|by rewrite E|done|done|done|done].
    + destruct rest as [|v rest'].
      * destruct (Parser.store_long cmd key0 None ctx) as [ctx'|e] eqn:E;
          [|discriminate].
        apply store_long_arguments in E. cbn [bind] in Hl. injection Hl as <-.
        exists []. split; [cbv iota; rewrite drop_nil; constructor|].
        rewrite app_nil_r. apply finish_variadic; [by rewrite E|done].
      * destruct (Parser.store_long cmd key0 (Some v) ctx) as [ctx'|e] eqn:E;
          [|discriminate].
        apply store_long_arguments in E. cbn [bind] in Hl. simpl in Hlen.
        apply (IH rest' ctx' idx col r); [lia|done|by rewrite E|done|done|done|done].
  - destruct (Str.startswith "-" arg && (String.length arg =? 2)%nat).
    + generalize dependent (Str.item 1 arg). intros short Hsub Hl.
      destruct (Parser._find_option_short cmd short) as [o|].
      * destruct rest as [|v rest'].
        -- destruct (Parser.store o None ctx) as [ctx'|e] eqn:E; [|discriminate].
           apply store_arguments in E. cbn [bind] in Hl. injection Hl as <-.
           exists []. split; [cbv iota; rewrite drop_nil; constructor|].
           rewrite app_nil_r. apply finish_variadic; [by rewrite E|done].
        -- destruct (Parser.store o (Some v) ctx) as [ctx'|e] eqn:E; [|discriminate].
           apply store_arguments in E. cbn [bind] in Hl. simpl in Hlen.
           apply (IH rest' ctx' idx col r);
             [lia|done|by rewrite E|done|done|done|done].
      * apply (IH rest ctx idx col r); [lia|done|done|done|done|done|done].
    + apply Forall_cons in Hsub as [Hs Hsub]. rewrite Hs in Hl.
      rewrite Hargs in Hl.
      destruct (decide (idx < length before)) as [Hlt|Hge].
      * (* the token fills an argument declared before the variadic one *)
        rewrite lookup_app_l in Hl by done.
        destruct (before !! idx) as [a|] eqn:Ea;
          [|apply lookup_ge_None in Ea; lia].
        destruct (Parser._convert (Some arg) (Argument.type a)) as [v|e];
          [|discriminate].
        cbn [bind] in Hl.
        assert (Hnv : Positional.variadic a = false).
        { by apply (proj1 (Forall_lookup _ _) Hbefore idx a). }
        unfold Positional.variadic in Hnv. rewrite Hnv in Hl.
        assert (Hna : Argument.name a <> Argument.name va).
        { intros Heq. apply Hname. rewrite <- Heq. apply in_map.
          apply list_elem_of_In. by apply (list_elem_of_lookup_2 _ idx). }
        replace (length before - idx)%nat with (S (length before - S idx)) by lia.
        cbn [drop].
        apply (IH rest (Context.set_argument (Argument.name a) v ctx)
                 (S idx) col r); [lia|lia| |intros; apply Hcol; lia|done|done|done].
        simpl. by rewrite lookup_insert_ne.
      * (* the token reaches the variadic argument *)
        assert (idx = length before) as -> by lia.
        rewrite list_lookup_middle in Hl by done.
        destruct (Parser._convert (Some arg) (Argument.type va)) as [v|e] eqn:Ev;
          [|discriminate].
        cbn [bind] in Hl. unfold Positional.variadic in Hva. rewrite Hva in Hl.
        destruct (IH rest ctx (length before)
                    (Parser.collect (Argument.name va) v col) r)
          as (vs & Hvs & Hr); [lia|lia|done|lia| |done|done|].
        { unfold Parser.collect. rewrite lookup_insert_eq.
          intros [= H]. by destruct (default [] (col !! Argument.name va)). }
        exists (v :: vs). rewrite Nat.sub_diag in Hvs |- *. cbn [drop] in Hvs |- *.
        split; [by constructor|].
        rewrite Hr. unfold Parser.collect. rewrite lookup_insert_eq.
        change (default [] (Some (default [] (col !! Argument.name va) ++ [v])))
          with (default [] (col !! Argument.name va) ++ [v]).
        by rewrite bound_app.
Qed.

Lemma store_converts (o : Option.t) (tok : option string) (ctx : Context.t) :
  is_Some (Filled.value_of (o, tok)) ->
  exists ctx', Parser.store o tok ctx = Ok ctx'.
Proof using Type.
  unfold Filled.value_of, Parser.store. cbn [fst snd].
  destruct (Parser._convert tok (Option.type o)) as [v|e]; [eauto|].
  by intros [? ?].
Qed.

Lemma store_long_converts (key : string) (tok : option string) (ctx : Context.t)
    (fl : list (Option.t * option string)) :
  Forall (fun e => is_Some (Filled.value_of e))
    (Filled.found (Parser._find_option cmd key) tok ++ fl) ->
  (exists ctx', Parser.store_long cmd key tok ctx = Ok ctx') /\
  Forall (fun e => is_Some (Filled.value_of e)) fl.
Proof using Type.
  unfold Parser.store_long.
  destruct (Parser._find_option cmd key) as [o|]; cbn [Filled.found app].
  - intros H. apply Forall_cons in H as [Ho Hfl]. split; [|done].
    by apply store_converts.
  - eauto.
Qed.

(** The loop returns as soon as every conversion that it makes succeeds:
    of the value of each flag that it stores, and of each positional
    token with the type of the argument that the token reaches.  The
    number of positional tokens plays no part. *)
Lemma loop_converts (n : nat) :
  forall (args : list string) (ctx : Context.t) (idx : nat)
         (col : gmap string (list value)),
    length args <= n ->
    idx <= length before ->
    Forall (fun t => Dict.get t (Command.subcommands cmd) = None)
      (Positional.positionals cmd args) ->
    Forall (fun e => is_Some (Filled.value_of e)) (Filled.flags cmd args) ->
    (forall j t a,
       Positional.positionals cmd args !! j = Some t ->
       Command.arguments cmd !! ((idx + j) `min` length before) = Some a ->
       exists v, Parser._convert (Some t) (Argument.type a) = Ok v) ->
    exists r, Parser.loop cmd ctx idx col args = Ok r.
Proof using Hargs Hva Hbefore.
  induction n as [|n IH]; intros args ctx idx col Hlen Hidx Hsub Hfl Hconv;
    (destruct args as [|arg rest]; [by eexists|]);
    [ simpl in Hlen; lia | ].
  simpl in Hlen.
  cbn [Parser.loop Filled.flags Positional.positionals] in Hsub, Hfl, Hconv |- *.
  cbv zeta.
  destruct (Str.startswith "--" arg).
  - generalize dependent (Str.drop 2 arg). intros key0 Hsub Hfl Hconv.
    destruct (Str.split_first "=" key0) as [[key v]|].
    + apply (store_long_converts key (Some v) ctx) in Hfl as [[ctx' ->] Hfl].
      cbn [bind]. apply (IH rest ctx' idx col); [lia|done|done|done|done].
    + destruct rest as [|v rest'].
      * rewrite <- (app_nil_r (Filled.found _ _)) in Hfl.
        apply (store_long_converts key0 None ctx []) in Hfl as [[ctx' ->] _].
        by eexists.
      * apply (store_long_converts key0 (Some v) ctx) in Hfl as [[ctx' ->] Hfl].
        cbn [bind]. simpl in Hlen.
        apply (IH rest' ctx' idx col); [lia|done|done|done|done].
  - destruct (Str.startswith "-" arg && (String.length arg =? 2)%nat).
    + generalize dependent (Str.item 1 arg). intros short Hsub Hfl Hconv.
      destruct (Parser._find_option_short cmd short) as [o|].
      * destruct rest as [|v rest'].
        -- apply Forall_cons in Hfl as [Ho _].
           destruct (store_converts o None ctx Ho) as [ctx' ->]. by eexists.
        -- apply Forall_cons in Hfl as [Ho Hfl].
           destruct (store_converts o (Some v) ctx Ho) as [ctx' ->].
           cbn [bind]. simpl in Hlen.
           apply (IH rest' ctx' idx col); [lia|done|done|done|done].
      * apply (IH rest ctx idx col); [lia|done|done|done|done].
    + apply Forall_cons in Hsub as [Hnone Hsub].
      destruct (Dict.get arg (Command.subcommands cmd)) as [sub|]; [done|].
      destruct (Command.arguments cmd !! idx) as [a|] eqn:Ea.
      * destruct (Hconv 0%nat arg a) as [v Hv]; [done| |].
        { by rewrite Nat.add_0_r, Nat.min_l. }
        rewrite Hv. cbn [bind].
        destruct (Str.mem (Argument.nargs a) ["*"; "+"]) eqn:Ev.
        -- assert (idx = length before) as ->.
           { destruct (decide (idx < length before)) as [Hlt|?]; [|lia].
             rewrite Hargs, lookup_app_l in Ea by done.
             apply list_elem_of_lookup_2 in Ea.
             pose proof (proj1 (Forall_forall _ _) Hbefore a Ea) as Hn.
             cbv beta in Hn. unfold Positional.variadic in Hn. congruence. }
           apply (IH rest ctx (length before)
                    (Parser.collect (Argument.name a) v col));
             [lia|done|done|done|].
           intros j t a' Hj Ha'. apply (Hconv (S j) t a'); [done|].
           by replace ((length before + S j) `min` length before)
             with ((length before + j) `min` length before) by lia.
        -- assert (idx < length before) as Hlt.
           { destruct (decide (idx = length before)) as [->|?]; [|lia].
             rewrite Hargs, list_lookup_middle in Ea by done.
             injection Ea as <-. unfold Positional.variadic in Hva. congruence. }
           apply (IH rest (Context.set_argument (Argument.name a) v ctx)
                    (S idx) col); [lia|lia|done|done|].
           intros j t a' Hj Ha'. apply (Hconv (S j) t a'); [done|].
           by replace ((idx + S j) `min` length before)
             with ((S idx + j) `min` length before) by lia.
      * apply lookup_ge_None in Ea. rewrite Hargs, length_app in Ea.
        simpl in Ea. lia.
Qed.

End Variadic.

(** C4. Let the last declared argument of a command be variadic
    ([nargs] is [*] or [+]), the arguments before it not, and its name
    differ from theirs; let no positional token of the stream name a
    subcommand.  Then a parse that returns has bound the argument to the
    converted positional tokens, in their order, that are left once each
    argument before it has taken one: all of them when it is the only
    argument.  With no such token the argument holds its declared
    default, also for [+].  One-or-more is not enforced: an exception of
    the parse is the exception that a type declared by the command raised
    on a string; and the parse returns as soon as the value of every flag
    converts with the type of its option and every positional token with
    the type of the argument it reaches, whatever the number of
    positional tokens, none included. *)
Theorem C4_variadic_argument (cmd : Command.t) (before : list Argument.t)
    (va : Argument.t) (args : list string) :
  Command.arguments cmd = before ++ [va] ->
  Positional.variadic va = true ->
  Forall (fun a => Positional.variadic a = false) before ->
  ~ In (Argument.name va) (map Argument.name before) ->
  Forall (fun t => Dict.get t (Command.subcommands cmd) = None)
    (Positional.positionals cmd args) ->
  (forall r,
     Parser.parse cmd args = Ok r ->
     exists vs,
       Forall2 (fun t v => Parser._convert (Some t) (Argument.type va) = Ok v)
         (drop (length before) (Positional.positionals cmd args)) vs /\
       Context.arguments r !! Argument.name va = Some (Positional.bound va vs)) /\
  (forall r,
     Parser.parse cmd args = Ok r ->
     length (Positional.positionals cmd args) <= length before ->
     Context.arguments r !! Argument.name va = Some (Argument.default va)) /\
  (forall e,
     Parser.parse cmd args = Raise e -> exists s, Loop.raised_on cmd s e) /\
  (Forall (fun e => is_Some (Filled.value_of e)) (Filled.flags cmd args) ->
   (forall j t a,
      Positional.positionals cmd args !! j = Some t ->
      Command.arguments cmd !! (j `min` length before) = Some a ->
      exists v, Parser._convert (Some t) (Argument.type a) = Ok v) ->
   exists r, Parser.parse cmd args = Ok r).
Proof.
  intros Hargs Hva Hbefore Hname Hsub.
  assert (Hbound : forall r,
             Parser.parse cmd args = Ok r ->
             exists vs,
               Forall2 (fun t v => Parser._convert (Some t) (Argument.type va) = Ok v)
                 (drop (length before) (Positional.positionals cmd args)) vs /\
               Context.arguments r !! Argument.name va
               = Some (Positional.bound va vs)).
  { intros r Hr.
    destruct (loop_variadic cmd before va Hargs Hva Hbefore Hname (length args)
                args (Context.set_command cmd Context.new) 0%nat ∅ r)
      as (vs & Hvs & Hl); try done; try lia.
    rewrite Nat.sub_0_r in Hvs. exists vs. split; [exact Hvs|].
    by rewrite Hl, lookup_empty. }
  split; [exact Hbound|]. split; [|split].
  - intros r Hr Hlen. destruct (Hbound r Hr) as (vs & Hvs & ->).
    rewrite drop_ge in Hvs by done.
    by apply Forall2_nil_inv_l in Hvs as ->.
  - intros e He.
    by apply (loop_raises_here cmd (length args) args
                (Context.set_command cmd Context.new) 0%nat ∅ e).
  - intros Hfl Hconv.
    apply (loop_converts cmd before va Hargs Hva Hbefore (length args) args
             (Context.set_command cmd Context.new) 0%nat ∅);
      [lia|lia|done|done|exact Hconv].
Qed.

(** The three tokens of the spec; no token at all for an argument of
    strings declared with [+]; and for one of integers, with and without
    a flag: the parse returns and the argument holds its default. *)
Lemma C4_variadic_argument_witness :
  Parser.parse Examples.add ["a"; "b"; "c"] = Ok Examples.added_abc /\
  Context.arguments Examples.added_abc !! "files"
    = Some (VList [VStr "a"; VStr "b"; VStr "c"]) /\
  Parser.parse Examples.add [] = Ok Examples.added_none /\
  Context.arguments Examples.added_none !! "files" = Some VNone /\
  Argument.nargs (Argument.mk "nums" py_int true VNone (VStr "") "+") = "+" /\
  (exists r, Parser.parse Examples.total [] = Ok r /\
             Context.arguments r !! "nums" = Some VNone) /\
  (exists r, Parser.parse Examples.total ["--scale"; "2"] = Ok r /\
             Context.arguments r !! "nums" = Some VNone) /\
  Parser.parse Examples.total ["1"; "x"] = Raise (ValueError "int" "x") /\
  (exists s, Loop.raised_on Examples.total s (ValueError "int" "x")).
Proof.
  assert (Hsub3 : Forall (fun t => Dict.get t (Command.subcommands Examples.add) = None)
                    (Positional.positionals Examples.add ["a"; "b"; "c"]))
    by (repeat constructor).
  assert (Hsub0 : Forall (fun t => Dict.get t (Command.subcommands Examples.add) = None)
                    (Positional.positionals Examples.add []))
    by constructor.
  pose (nums := Argument.mk "nums" py_int true VNone (VStr "") "+").
  assert (Ht : forall args,
             Forall (fun t => Dict.get t (Command.subcommands Examples.total) = None)
               (Positional.positionals Examples.total args)).
  { intros args. apply Forall_forall. by intros t _. }
  assert (Hnone : forall args,
             Positional.positionals Examples.total args = [] ->
             Forall (fun e => is_Some (Filled.value_of e))
               (Filled.flags Examples.total args) ->
             exists r, Parser.parse Examples.total args = Ok r /\
                       Context.arguments r !! "nums" = Some VNone).
  { intros args Hp Hfl.
    destruct (C4_variadic_argument Examples.total [] nums args
                eq_refl eq_refl (Forall_nil_2 _) (fun H => H) (Ht args))
      as (_ & Hdef & _ & Hret).
    destruct (Hret Hfl) as [r Hr].
    { intros j t a Hj. by rewrite Hp in Hj. }
    exists r. split; [exact Hr|]. apply (Hdef r Hr). rewrite Hp. simpl. lia. }
  split; [reflexivity|]. split; [|split; [reflexivity|split]].
  - destruct (proj1 (C4_variadic_argument Examples.add []
                       (Argument.mk "files" py_str true VNone (VStr "") "+")
                       ["a"; "b"; "c"] eq_refl eq_refl (Forall_nil_2 _)
                       (fun H => H) Hsub3) Examples.added_abc eq_refl)
      as (vs & Hvs & Hl).
    cbn [Argument.name Argument.type] in Hvs, Hl. rewrite Hl.
    change (drop (length []) (Positional.positionals Examples.add ["a"; "b"; "c"]))
      with ["a"; "b"; "c"] in Hvs.
    apply Forall2_cons_inv_l in Hvs as (va & vs1 & [= <-] & Hvs & ->).
    apply Forall2_cons_inv_l in Hvs as (vb & vs2 & [= <-] & Hvs & ->).
    apply Forall2_cons_inv_l in Hvs as (vc & vs3 & [= <-] & Hvs & ->).
    apply Forall2_nil_inv_l in Hvs as ->. reflexivity.
  - refine (proj1 (proj2 (C4_variadic_argument Examples.add []
                            (Argument.mk "files" py_str true VNone (VStr "") "+")
                            [] eq_refl eq_refl (Forall_nil_2 _)
                            (fun H => H) Hsub0)) Examples.added_none eq_refl _).
    simpl. lia.
  - split; [reflexivity|]. split; [|split; [|split; [reflexivity|]]].
    + apply (Hnone []); [reflexivity|constructor].
    + apply (Hnone ["--scale"; "2"]); [reflexivity|].
      repeat constructor. by exists (VInt 2).
    + exact (proj1 (proj2 (proj2 (C4_variadic_argument Examples.total [] nums
                                    ["1"; "x"] eq_refl eq_refl (Forall_nil_2 _)
                                    (fun H => H) (Ht _))))
               (ValueError "int" "x") eq_refl).
Defined.

End Parse.

(** ** The claims on registration and dispatch *)

Section Dispatch.

Lemma fire_all_return (kind : string) (hooks : list CLI.Hook) (a : CLI.hook_arg) :
  forall i,
    Forall (fun h => h a = None) hooks ->
    CLI.fire kind i hooks a = (CLI.all_fired kind i hooks a, Ok tt).
Proof.
  induction hooks as [|h hooks IH]; intros i Hall; [reflexivity|].
  apply Forall_cons in Hall as [Hh Hall].
  cbn [CLI.fire CLI.all_fired]. rewrite Hh.
  unfold CLI.io_bind, CLI.emit. by rewrite (IH (S i) Hall).
Qed.

Lemma fire_raises (kind : string) (before : list CLI.Hook) (h : CLI.Hook)
    (rest : list CLI.Hook) (a : CLI.hook_arg) (e : exn) :
  forall i,
    Forall (fun h => h a = None) before ->
    h a = Some e ->
    CLI.fire kind i (before ++ h :: rest) a
    = (CLI.all_fired kind i (before ++ [h]) a, Raise e).
Proof.
  induction before as [|h' before IH]; intros i Hall Hh.
  - cbn [app CLI.fire CLI.all_fired]. rewrite Hh. reflexivity.
  - apply Forall_cons in Hall as [Hh' Hall].
    cbn [app CLI.fire CLI.all_fired]. rewrite Hh'.
    unfold CLI.io_bind, CLI.emit. by rewrite (IH (S i) Hall Hh).
Qed.

(** When the stream is not a request for help or for the version and
    resolves to a command, [dispatch] calls its handler and then the
    "after" hooks. *)
Lemma dispatch_calls_handler (cli : CLI.t) (impl : nat -> Context.t -> result value)
    (a0 : string) (rest : list string) (ctx : Context.t) (cmd : Command.t) :
  Str.mem a0 ["-h"; "--help"] = false ->
  Str.mem a0 ["-v"; "--version"] = false ->
  Parser.parse (CLI.root cli) (a0 :: rest) = Ok ctx ->
  Context.command ctx = Some cmd ->
  CLI.dispatch cli impl (a0 :: rest)
  = CLI.io_bind (CLI.call impl (Command.handler cmd) ctx) (fun result =>
    CLI.io_bind (CLI.fire "after" 0 (CLI.after cli) (CLI.AfterArgs ctx result))
      (fun _ => CLI.ret (CLI.status result))).
Proof.
  intros Hh Hv Hp Hc. unfold CLI.dispatch. rewrite Hh, Hv, Hp.
  cbn [CLI.io_bind]. rewrite Hc.
  destruct (CLI.call impl (Command.handler cmd) ctx) as [tr [res|e]]; [|done].
  cbn [CLI.io_bind app].
  by destruct (CLI.fire "after" 0 (CLI.after cli) (CLI.AfterArgs ctx res))
    as [tr' [[]|e']].
Qed.

(** C7, as the code has it.  The "before" hooks are called ahead of the
    [try] of [run] and the "error" hooks inside its [except]; the "after"
    hooks are called inside the [try].
    - An "after" hook that raises is handled at the error boundary: every
      "error" hook is called with the exception (none of them raising),
      the message is printed and [run] returns 1.
    - A "before" hook that raises ends [run] with that exception: no
      "error" hook is called and nothing is printed.
    - An "error" hook that raises ends [run] with its exception. *)
Theorem C7_hooks_and_the_error_boundary (cli : CLI.t)
    (impl : nat -> Context.t -> result value) (args : list string)
    (hs1 hs2 : list CLI.Hook) (h : CLI.Hook) (e : exn) :
  (forall a0 rest ctx cmd trc res,
     Forall (fun h => h (CLI.BeforeArgs args) = None) (CLI.before cli) ->
     args = a0 :: rest ->
     Str.mem a0 ["-h"; "--help"] = false ->
     Str.mem a0 ["-v"; "--version"] = false ->
     Parser.parse (CLI.root cli) args = Ok ctx ->
     Context.command ctx = Some cmd ->
     CLI.call impl (Command.handler cmd) ctx = (trc, Ok res) ->
     CLI.after cli = hs1 ++ h :: hs2 ->
     Forall (fun h => h (CLI.AfterArgs ctx res) = None) hs1 ->
     h (CLI.AfterArgs ctx res) = Some e ->
     Forall (fun h => h (CLI.ErrorArgs e) = None) (CLI.error cli) ->
     CLI.run cli impl args
     = (CLI.all_fired "before" 0 (CLI.before cli) (CLI.BeforeArgs args)
        ++ (trc ++ CLI.all_fired "after" 0 (hs1 ++ [h]) (CLI.AfterArgs ctx res))
        ++ CLI.all_fired "error" 0 (CLI.error cli) (CLI.ErrorArgs e)
        ++ [CLI.PrintError e],
        Ok 1%Z)) /\
  (CLI.before cli = hs1 ++ h :: hs2 ->
   Forall (fun h => h (CLI.BeforeArgs args) = None) hs1 ->
   h (CLI.BeforeArgs args) = Some e ->
   CLI.run cli impl args
   = (CLI.all_fired "before" 0 (hs1 ++ [h]) (CLI.BeforeArgs args), Raise e)) /\
  (forall trd e0,
     Forall (fun h => h (CLI.BeforeArgs args) = None) (CLI.before cli) ->
     CLI.dispatch cli impl args = (trd, Raise e0) ->
     CLI.error cli = hs1 ++ h :: hs2 ->
     Forall (fun h => h (CLI.ErrorArgs e0) = None) hs1 ->
     h (CLI.ErrorArgs e0) = Some e ->
     CLI.run cli impl args
     = (CLI.all_fired "before" 0 (CLI.before cli) (CLI.BeforeArgs args)
        ++ trd ++ CLI.all_fired "error" 0 (hs1 ++ [h]) (CLI.ErrorArgs e0),
        Raise e)).
Proof.
  split; [|split].
  - intros a0 rest ctx cmd trc res Hb -> Hhelp Hver Hp Hc Hcall Ha H1 Hh He.
    unfold CLI.run. rewrite (fire_all_return _ _ _ _ Hb).
    cbn [CLI.io_bind].
    rewrite (dispatch_calls_handler _ _ _ _ _ _ Hhelp Hver Hp Hc), Hcall.
    cbn [CLI.io_bind].
    rewrite Ha, (fire_raises _ _ _ _ _ _ _ H1 Hh).
    cbn [CLI.catch CLI.io_bind]. rewrite (fire_all_return _ _ _ _ He).
    cbn [CLI.io_bind CLI.emit CLI.ret]. by rewrite app_nil_r.
  - intros Hb H1 Hh. unfold CLI.run.
    by rewrite Hb, (fire_raises _ _ _ _ _ _ _ H1 Hh).
  - intros trd e0 Hb Hd He H1 Hh. unfold CLI.run.
    rewrite (fire_all_return _ _ _ _ Hb). cbn [CLI.io_bind]. rewrite Hd.
    cbn [CLI.catch]. by rewrite He, (fire_raises _ _ _ _ _ _ _ H1 Hh).
Qed.

(** The "after" hook of [app_after] raises once [greet] has returned. *)
Lemma C7_hooks_and_the_error_boundary_witness :
  CLI.after Examples.app_after = [] ++ Examples.failing_hook :: [] /\
  CLI.error Examples.app_after = [Examples.quiet_hook] /\
  Parser.parse (CLI.root Examples.app_after) ["greet"] = Ok Examples.greet_ctx /\
  CLI.run Examples.app_after Examples.impl ["greet"]
  = ([CLI.Called (Fn 1) Examples.greet_ctx;
      CLI.Fired "after" 0 (CLI.AfterArgs Examples.greet_ctx (VInt 0));
      CLI.Fired "error" 0 (CLI.ErrorArgs (RuntimeError "boom"));
      CLI.PrintError (RuntimeError "boom")],
     Ok 1%Z).
Proof.
  split; [reflexivity|]. split; [reflexivity|]. split; [reflexivity|].
  refine (proj1 (C7_hooks_and_the_error_boundary Examples.app_after Examples.impl
                   ["greet"] [] [] Examples.failing_hook (RuntimeError "boom"))
            "greet" [] Examples.greet_ctx
            (Command.mk "greet" (Fn 1) "Greet someone" [] [] [])
            [CLI.Called (Fn 1) Examples.greet_ctx] (VInt 0)
            _ _ _ _ _ _ _ _ _ _ _);
    try reflexivity; repeat constructor.
Defined.

(** C7 as stated fails for a "before" hook: the exception of the hook of
    [app_before] leaves [run]; the "error" hook of the application is not
    called and nothing is printed. *)
Lemma C7_before_hook_escapes :
  length (CLI.before Examples.app_before) = 1%nat /\
  length (CLI.error Examples.app_before) = 1%nat /\
  CLI.run Examples.app_before Examples.impl ["greet"]
  = ([CLI.Fired "before" 0 (CLI.BeforeArgs ["greet"])],
     Raise (RuntimeError "boom")).
Proof. repeat split. Qed.

(** *** Registration *)

Lemma argument_on_registered_handler (cli : CLI.t) (fn : Handler) (cmd : Command.t)
    (name : string) (type : PyType) (required : bool) (help nargs : string) :
  CLI._find_command_for_handler cli fn = Some cmd ->
  CLI.argument name type required help nargs fn cli = Raise (NameError "rue").
Proof. intros H. unfold CLI.argument. by rewrite H. Qed.

(** The decorator next to it does what [argument] is meant to do: the
    option is appended to the command found. *)
Lemma first_with_handler_update (fn : Handler) (f : Command.t -> Command.t)
    (d : list (string * Command.t)) :
  (forall c, Command.handler (f c) = Command.handler c) ->
  CLI.first_with_handler fn (Dict.values (CLI.update_first fn f d))
  = f <$> CLI.first_with_handler fn (Dict.values d).
Proof.
  intros Hf. induction d as [|[k c] d IH]; [reflexivity|].
  cbn [CLI.update_first Dict.values map snd CLI.first_with_handler].
  destruct (Handler_eqb (Command.handler c) fn) eqn:E.
  - cbn [Dict.values map snd CLI.first_with_handler]. by rewrite Hf, E.
  - cbn [Dict.values map snd CLI.first_with_handler]. rewrite E. apply IH.
Qed.

Lemma option_on_registered_handler (cli : CLI.t) (fn : Handler) (cmd : Command.t)
    (name short : string) (type : PyType) (default : value) (required : bool)
    (help : string) :
  CLI._find_command_for_handler cli fn = Some cmd ->
  exists cli',
    CLI.option name short type default required help fn cli = (cli', fn) /\
    CLI._find_command_for_handler cli' fn
    = Some (CLI.append_option
              (Option.mk name short type default required help false) cmd).
Proof.
  intros H. unfold CLI.option. rewrite H. eexists. split; [reflexivity|].
  unfold CLI._find_command_for_handler in *. cbn [CLI.set_subcommands CLI.set_root
    CLI.root Command.subcommands].
  rewrite first_with_handler_update by done. by rewrite H.
Qed.

(** C9 on the code: [greet] is a direct child of the root of [app] and its
    handler is the decorated function, yet decorating it with
    [app.argument("who", help="Who to greet")] raises [NameError]: nothing
    is appended and the handler is not returned. *)
Theorem C9_argument_raises_NameError :
  CLI._find_command_for_handler Examples.app (Fn 1)
    = Some (Command.mk "greet" (Fn 1) "Greet someone" [] [] []) /\
  CLI.argument "who" py_str true "Who to greet" "" (Fn 1) Examples.app
    = Raise (NameError "rue").
Proof. split; reflexivity. Qed.

End Dispatch.

(** ** What a parse returns *)

Section Shape.

Lemma find_argument_name (n : string) (args : list Argument.t) (a : Argument.t) :
  Prefix.find_argument n args = Some a -> Argument.name a = n /\ In a args.
Proof.
  induction args as [|a' args IH]; simpl; [done|].
  destruct (String.eqb_spec (Argument.name a') n) as [<-|Hne].
  - intros [= ->]. auto.
  - intros H. destruct (IH H). auto.
Qed.

Lemma find_argument_is_Some (n : string) (args : list Argument.t) :
  In n (map Argument.name args) -> is_Some (Prefix.find_argument n args).
Proof.
  induction args as [|a' args IH]; simpl; [done|].
  destruct (String.eqb_spec (Argument.name a') n) as [<-|Hne]; [eauto|].
  intros [H|H]; [done|auto].
Qed.

Lemma step_frame (cmd : Command.t) (ctx ctx' : Context.t) (idx idx' : nat)
    (col col' : gmap string (list value)) :
  Loop.step cmd (ctx, idx, col) (ctx', idx', col') ->
  Context.command ctx' = Context.command ctx /\
  Context.parent ctx' = Context.parent ctx.
Proof. by inversion 1. Qed.

Lemma step_declared (cmd : Command.t) (st st' : Prefix.state) :
  Loop.step cmd st st' -> Loop.declared cmd st -> Loop.declared cmd st'.
Proof.
  destruct 1 as [st|ctx idx col o tok v Hin _|ctx idx col a tok v Ha _ _
                |ctx idx col a tok v Ha _ _]; [done|..];
    intros (Ho & Hg & Hc); (split; [|split]); try done.
  - intros n. simpl. destruct (decide (Option.name o = n)) as [<-|Hne].
    + intros _. by apply in_map.
    + rewrite lookup_insert_ne by done. apply Ho.
  - intros n. unfold Parser.collect.
    destruct (decide (Argument.name a = n)) as [<-|Hne].
    + intros _. apply in_map, list_elem_of_In.
      by apply (list_elem_of_lookup_2 _ idx).
    + rewrite lookup_insert_ne by done. apply Hc.
  - intros n. simpl. destruct (decide (Argument.name a = n)) as [<-|Hne].
    + intros _. apply in_map, list_elem_of_In.
      by apply (list_elem_of_lookup_2 _ idx).
    + rewrite lookup_insert_ne by done. apply Hg.
Qed.

Lemma start_declared (cmd : Command.t) : Loop.declared cmd (Prefix.start cmd).
Proof.
  repeat split; intros n; simpl; rewrite lookup_empty; by intros [? ?].
Qed.

Lemma finish_exact (cmd : Command.t) (ctx : Context.t) (idx : nat)
    (col : gmap string (list value)) :
  Loop.declared cmd (ctx, idx, col) ->
  Loop.exact cmd (Parser.finish cmd ctx col).
Proof.
  intros (Ho & Hg & Hc). split; intros n.
  - rewrite finish_options. split.
    + destruct (Context.options ctx !! n) eqn:E; [intros _; apply Ho; by rewrite E|].
      unfold Parser._find_option.
      destruct (Parser.find_by_name n (Command.options cmd)) as [o|] eqn:Ef;
        [|by intros [? ?]].
      apply find_by_name_name in Ef as [<- Hin]. intros _. by apply in_map.
    + intros Hin. destruct (Context.options ctx !! n); [eauto|].
      destruct (find_by_name_is_Some n _ Hin) as [o Hf].
      unfold Parser._find_option. rewrite Hf. simpl. eauto.
  - rewrite finish_arguments. split.
    + destruct (col !! n) eqn:E1; [intros _; apply Hc; by rewrite E1|].
      destruct (Context.arguments ctx !! n) eqn:E; [intros _; apply Hg; by rewrite E|].
      destruct (Prefix.find_argument n (Command.arguments cmd)) as [a|] eqn:Ef;
        [|by intros [? ?]].
      apply find_argument_name in Ef as [<- Hin]. intros _. by apply in_map.
    + intros Hin. destruct (col !! n); [eauto|].
      destruct (Context.arguments ctx !! n); [eauto|].
      destruct (find_argument_is_Some n _ Hin) as [a Hf]. rewrite Hf. simpl. eauto.
Qed.

(** The shape of what the loop returns: it resolves to a command of the
    tree, its keys are the names which that command declares, and its
    parent is the one of the context the loop started with, or that
    context itself as it stood when the loop delegated. *)
Lemma loop_shape (n : nat) :
  forall (args : list string) (cmd : Command.t) (ctx : Context.t) (idx : nat)
         (col : gmap string (list value)) (r : Context.t),
    length args <= n ->
    Context.command ctx = Some cmd ->
    Loop.declared cmd (ctx, idx, col) ->
    Parser.loop cmd ctx idx col args = Ok r ->
    (exists c, Context.command r = Some c /\ Tree.descendant cmd c /\ Loop.exact c r) /\
    (Context.parent r = Context.parent ctx \/
     exists p, Context.parent r = Some p /\ Context.command p = Some cmd /\
               Context.parent p = Context.parent ctx).
Proof.
  induction n as [|n IH]; intros args cmd ctx idx col r Hlen Hcmd Hdecl Hl;
    (destruct args as [|arg rest];
     [ injection Hl as <-; destruct (finish_frame cmd ctx col) as [Hp Hc]; split;
       [ exists cmd; split; [congruence|]; split;
         [constructor | by apply (finish_exact cmd ctx idx)]
       | by left ]
     | ]);
    [ simpl in Hlen; lia | ].
  simpl in Hlen.
  destruct (loop_iteration cmd ctx idx col arg rest)
    as [([[ctx' idx'] col'] & rest' & Hs & Hlen' & _ & He)
       |[(tname & s & _ & He)|(sub & _ & Hsub & _ & He)]];
    rewrite He in Hl.
  - destruct (step_frame _ _ _ _ _ _ _ Hs) as [Hc' Hp'].
    destruct (IH rest' cmd ctx' idx' col' r) as [H1 H2];
      [lia|congruence|by apply (step_declared _ _ _ Hs)|done|].
    split; [done|]. by rewrite <- Hp'.
  - discriminate.
  - unfold Parser.parse in Hl.
    destruct (Parser.loop sub (Context.set_command sub Context.new) 0 ∅ rest)
      as [r'|e] eqn:E; [|discriminate].
    injection Hl as <-.
    destruct (IH rest sub (Context.set_command sub Context.new) 0%nat ∅ r')
      as [(c & Hc & Hd & Hx) _]; [lia|done|apply start_declared|done|].
    split.
    + exists c. split; [done|]. split; [by eapply Tree.below|done].
    + right. by exists ctx.
Qed.

End Shape.

Section Outcome.

Lemma descendant_below (c sub d : Command.t) (k : string) :
  Dict.get k (Command.subcommands c) = Some sub ->
  Tree.descendant sub d -> Tree.descendant c d.
Proof. intros. by eapply Tree.below. Qed.

(** An exception of the loop is the exception that a type declared by a
    command of the tree raised on a string. *)
Lemma loop_raises_declared (n : nat) :
  forall (args : list string) (cmd : Command.t) (ctx : Context.t) (idx : nat)
         (col : gmap string (list value)) (e : exn),
    length args <= n ->
    Parser.loop cmd ctx idx col args = Raise e ->
    exists c s, Tree.descendant cmd c /\ Loop.raised_on c s e.
Proof.
  induction n as [|n IH]; intros args cmd ctx idx col e Hlen Hl;
    (destruct args as [|arg rest]; [discriminate|]);
    [ simpl in Hlen; lia | ].
  simpl in Hlen.
  destruct (loop_iteration cmd ctx idx col arg rest)
    as [([[ctx' idx'] col'] & rest' & _ & Hlen' & _ & He)
       |[(s & e0 & Hrej & He)|(sub & _ & Hsub & _ & He)]];
    rewrite He in Hl.
  - apply (IH rest' cmd ctx' idx' col' e); [lia|done].
  - injection Hl as <-. exists cmd, s. split; [constructor|done].
  - unfold Parser.parse in Hl.
    destruct (Parser.loop sub (Context.set_command sub Context.new) 0 ∅ rest)
      as [r'|e'] eqn:E; [discriminate|].
    injection Hl as <-.
    destruct (IH rest sub (Context.set_command sub Context.new) 0%nat ∅ e')
      as (c & s & Hd & Hrej); [lia|done|].
    exists c, s. split; [by eapply descendant_below|done].
Qed.

(** Without a positional token that names a subcommand the loop stays at
    its level; with one it delegates. *)
Lemma loop_stays (n : nat) :
  forall (args : list string) (cmd : Command.t) (ctx : Context.t) (idx : nat)
         (col : gmap string (list value)) (r : Context.t),
    length args <= n ->
    Forall (fun t => Dict.get t (Command.subcommands cmd) = None)
      (Positional.positionals cmd args) ->
    Parser.loop cmd ctx idx col args = Ok r ->
    Context.command r = Context.command ctx /\
    Context.parent r = Context.parent ctx.
Proof.
  induction n as [|n IH]; intros args cmd ctx idx col r Hlen Hpos Hl;
    (destruct args as [|arg rest];
     [ injection Hl as <-; by destruct (finish_frame cmd ctx col) as [-> ->] | ]);
    [ simpl in Hlen; lia | ].
  simpl in Hlen.
  destruct (loop_iteration cmd ctx idx col arg rest)
    as [([[ctx' idx'] col'] & rest' & Hs & Hlen' & Hp & He)
       |[(tname & s & _ & He)|(sub & _ & Hsub & Hp & He)]];
    rewrite He in Hl.
  - destruct (step_frame _ _ _ _ _ _ _ Hs) as [<- <-].
    apply (IH rest' cmd ctx' idx' col' r); [lia| |done].
    destruct Hp as [[Hp _]|(_ & Hp & _)]; rewrite Hp in Hpos; [done|].
    by apply Forall_cons in Hpos as [_ ?].
  - discriminate.
  - rewrite Hp in Hpos. apply Forall_cons in Hpos as [Hnone _]. congruence.
Qed.

Lemma loop_leaves (n : nat) :
  forall (args : list string) (cmd : Command.t) (ctx : Context.t) (idx : nat)
         (col : gmap string (list value)) (r : Context.t),
    length args <= n ->
    Exists (fun t => is_Some (Dict.get t (Command.subcommands cmd)))
      (Positional.positionals cmd args) ->
    Parser.loop cmd ctx idx col args = Ok r ->
    exists p, Context.parent r = Some p.
Proof.
  induction n as [|n IH]; intros args cmd ctx idx col r Hlen Hpos Hl;
    (destruct args as [|arg rest]; [by apply Exists_nil in Hpos|]);
    [ simpl in Hlen; lia | ].
  simpl in Hlen.
  destruct (loop_iteration cmd ctx idx col arg rest)
    as [([[ctx' idx'] col'] & rest' & Hs & Hlen' & Hp & He)
       |[(tname & s & _ & He)|(sub & _ & Hsub & Hp & He)]];
    rewrite He in Hl.
  - apply (IH rest' cmd ctx' idx' col' r); [lia| |done].
    destruct Hp as [[Hp _]|(Hnone & Hp & _)]; rewrite Hp in Hpos; [done|].
    apply Exists_cons in Hpos as [[x Hx]|?]; [congruence|done].
  - discriminate.
  - destruct (Parser.parse sub rest) as [r'|e]; [|discriminate].
    injection Hl as <-. by exists ctx.
Qed.

(** The context that a parse returns resolves to a command of the tree:
    the command given to the parser or one reached from it along
    subcommand names. *)
Theorem parse_resolves_in_tree (cmd : Command.t) (args : list string)
    (r : Context.t) :
  Parser.parse cmd args = Ok r ->
  exists c, Context.command r = Some c /\ Tree.descendant cmd c.
Proof.
  intros H.
  destruct (loop_shape (length args) args cmd
              (Context.set_command cmd Context.new) 0%nat ∅ r)
    as [(c & Hc & Hd & _) _]; [lia|done|apply start_declared|done|].
  by exists c.
Qed.

Lemma parse_resolves_in_tree_witness :
  Parser.parse Examples.root ["greet"; "Hi"]
  = Ok (Context.set_parent (Context.set_command Examples.root Context.new)
          (Parser.finish Examples.greet
             (Context.set_argument "greeting" (VStr "Hi")
                (Context.set_command Examples.greet Context.new)) ∅)) /\
  exists c,
    Context.command
      (Context.set_parent (Context.set_command Examples.root Context.new)
         (Parser.finish Examples.greet
            (Context.set_argument "greeting" (VStr "Hi")
               (Context.set_command Examples.greet Context.new)) ∅)) = Some c /\
    Tree.descendant Examples.root c.
Proof.
  split; [reflexivity|].
  exact (parse_resolves_in_tree Examples.root ["greet"; "Hi"] _ eq_refl).
Defined.

(** The keys of the options of the returned context are exactly the names
    of the options that its command declares, and the keys of its
    arguments exactly the names of the declared arguments: nothing is
    stored under an undeclared name and no declared name is missing. *)
Theorem parse_keys_are_the_declared_names (cmd : Command.t) (args : list string)
    (r : Context.t) (c : Command.t) :
  Parser.parse cmd args = Ok r ->
  Context.command r = Some c ->
  (forall n, is_Some (Context.options r !! n) <->
             In n (map Option.name (Command.options c))) /\
  (forall n, is_Some (Context.arguments r !! n) <->
             In n (map Argument.name (Command.arguments c))).
Proof.
  intros H Hc.
  destruct (loop_shape (length args) args cmd
              (Context.set_command cmd Context.new) 0%nat ∅ r)
    as [(c' & Hc' & _ & Hx) _]; [lia|done|apply start_declared|done|].
  rewrite Hc in Hc'. injection Hc' as <-. exact Hx.
Qed.

Lemma parse_keys_are_the_declared_names_witness :
  Parser.parse Examples.greet ["--bogus"; "x"; "Hi"; "there"; "--count"; "2"]
  = Ok (Parser.finish Examples.greet
          (Context.set_option "count" (VInt 2)
             (Context.set_argument "greeting" (VStr "Hi")
                (Context.set_command Examples.greet Context.new))) ∅) /\
  (forall n,
     is_Some (Context.options
                (Parser.finish Examples.greet
                   (Context.set_option "count" (VInt 2)
                      (Context.set_argument "greeting" (VStr "Hi")
                         (Context.set_command Examples.greet Context.new))) ∅)
              !! n) <->
     In n ["name"; "count"]).
Proof.
  split; [reflexivity|].
  exact (proj1 (parse_keys_are_the_declared_names Examples.greet
                  ["--bogus"; "x"; "Hi"; "there"; "--count"; "2"] _
                  Examples.greet eq_refl eq_refl)).
Defined.

(** The parent of the returned context, when there is one, is the context
    of the outermost parser: its command is the command that the parse
    started with and it has no parent itself, however deep the parse
    delegated. *)
Theorem parse_parent_is_outermost (cmd : Command.t) (args : list string)
    (r : Context.t) :
  Parser.parse cmd args = Ok r ->
  Context.parent r = None \/
  exists p, Context.parent r = Some p /\ Context.command p = Some cmd /\
            Context.parent p = None.
Proof.
  intros H.
  destruct (loop_shape (length args) args cmd
              (Context.set_command cmd Context.new) 0%nat ∅ r)
    as [_ Hp]; [lia|done|apply start_declared|done|].
  exact Hp.
Qed.

(** With [db migrate] the parser delegates twice; the parent of the result
    is the context of the root, not the one of [db]. *)
Lemma parse_parent_is_outermost_witness :
  Parser.parse (CLI.root Registered.example_app) ["db"; "migrate"]
  = Ok Registered.migrate_ctx /\
  (Context.parent Registered.migrate_ctx = None \/
   exists p, Context.parent Registered.migrate_ctx = Some p /\
             Context.command p = Some (CLI.root Registered.example_app) /\
             Context.parent p = None).
Proof.
  split; [reflexivity|].
  exact (parse_parent_is_outermost (CLI.root Registered.example_app)
           ["db"; "migrate"] Registered.migrate_ctx eq_refl).
Defined.

(** A parse stays at its level exactly when none of its positional tokens
    names a subcommand: then the returned context has no parent and
    resolves to the command of the parser; when one does, the parser
    delegates and the returned context has a parent. *)
Theorem parse_delegates_iff_subcommand_token (cmd : Command.t)
    (args : list string) (r : Context.t) :
  Parser.parse cmd args = Ok r ->
  (Forall (fun t => Dict.get t (Command.subcommands cmd) = None)
     (Positional.positionals cmd args) ->
   Context.command r = Some cmd /\ Context.parent r = None) /\
  (Exists (fun t => is_Some (Dict.get t (Command.subcommands cmd)))
     (Positional.positionals cmd args) ->
   exists p, Context.parent r = Some p).
Proof.
  intros H. split; intros Hpos.
  - by apply (loop_stays (length args) args cmd
                (Context.set_command cmd Context.new) 0%nat ∅ r).
  - by apply (loop_leaves (length args) args cmd
                (Context.set_command cmd Context.new) 0%nat ∅ r).
Qed.

(** [--verbose greet] gives [greet] to the flag: the parse stays at the
    root. *)
Lemma parse_delegates_iff_subcommand_token_witness :
  Parser.parse Examples.root ["--verbose"; "greet"]
  = Ok (Parser.finish Examples.root
          (Context.set_option "verbose" (VBool false)
             (Context.set_command Examples.root Context.new)) ∅) /\
  Positional.positionals Examples.root ["--verbose"; "greet"] = [] /\
  Context.command
    (Parser.finish Examples.root
       (Context.set_option "verbose" (VBool false)
          (Context.set_command Examples.root Context.new)) ∅)
  = Some Examples.root /\
  Context.parent
    (Parser.finish Examples.root
       (Context.set_option "verbose" (VBool false)
          (Context.set_command Examples.root Context.new)) ∅)
  = None.
Proof.
  split; [reflexivity|]. split; [reflexivity|].
  exact (proj1 (parse_delegates_iff_subcommand_token Examples.root
                  ["--verbose"; "greet"] _ eq_refl)
           (Forall_nil_2 _)).
Defined.



(** When no type declared in the tree of commands can raise (all are
    [str], [bool] or as total), every stream of tokens parses: the parser
    has no error of its own. *)
Theorem parse_of_lenient_tree_returns (cmd : Command.t) (args : list string) :
  Tree.lenient cmd ->
  exists r, Parser.parse cmd args = Ok r.
Proof.
  intros Hlen. destruct (Parser.parse cmd args) as [r|e] eqn:E; [eauto|].
  exfalso.
  destruct (loop_raises_declared (length args) args cmd
              (Context.set_command cmd Context.new) 0%nat ∅ e)
    as (c & s & Hd & Hrej); [lia|done|].
  destruct (Hlen c Hd) as [Ho Ha].
  by apply (accepts_not_raised c s e Ho Ha).
Qed.

Lemma add_lenient : Tree.lenient Examples.add.
Proof.
  intros d Hd. inversion Hd as [|c sub d' k Hk _]; subst.
  - split; repeat constructor. intros s. by exists (VStr s).
  - discriminate.
Defined.

Lemma parse_of_lenient_tree_returns_witness :
  Tree.lenient Examples.add /\
  exists r, Parser.parse Examples.add ["--x"; "-y"; "a"; "--z=1"; "b"] = Ok r.
Proof.
  split; [exact add_lenient|].
  exact (parse_of_lenient_tree_returns Examples.add
           ["--x"; "-y"; "a"; "--z=1"; "b"] add_lenient).
Defined.

End Outcome.

(** ** More on flags and positional tokens *)

Section Flags.

Lemma loop_short_unknown (cmd : Command.t) (ctx : Context.t) (idx : nat)
    (col : gmap string (list value)) (c : ascii) (post : list string) :
  c <> "-"%char ->
  Parser._find_option_short cmd (String c "") = None ->
  Parser.loop cmd ctx idx col (String "-" (String c "") :: post) =
  Parser.loop cmd ctx idx col post.
Proof.
  intros Hc Ho. cbn [Parser.loop]. cbv zeta.
  assert (Hl : Str.startswith "--" (String "-" (String c "")) = false).
  { cbn [Str.startswith].
    replace (Ascii.eqb "-" c) with false; [reflexivity|].
    symmetry. apply Ascii.eqb_neq. congruence. }
  rewrite Hl.
  change (Str.startswith "-" (String "-" (String c ""))
          && (String.length (String "-" (String c "")) =? 2)%nat) with true.
  change (Str.item 1 (String "-" (String c ""))) with (String c "").
  cbv iota. by rewrite Ho.
Qed.

(** An unknown short flag [-c] is dropped alone: unlike an unknown long
    flag, it does not take the token after it, which is read as if the
    flag were not there. *)
Theorem unknown_short_flag_dropped_alone (cmd : Command.t)
    (pre post : list string) (c : ascii) (st : Prefix.state) :
  Prefix.reads cmd (Prefix.start cmd) pre = Some st ->
  c <> "-"%char ->
  Parser._find_option_short cmd (String c "") = None ->
  Parser.parse cmd (pre ++ String "-" (String c "") :: post) =
  Parser.parse cmd (pre ++ post).
Proof.
  intros Hr Hc Ho. rewrite !(parse_reads _ _ _ _ Hr).
  destruct st as [[ctx idx] col]. cbn [Prefix.resume].
  by apply loop_short_unknown.
Qed.

Lemma unknown_short_flag_dropped_alone_witness :
  Prefix.reads Examples.greet (Prefix.start Examples.greet) ["-n"; "Ada"]
  = Some (Context.set_option "name" (VStr "Ada")
            (Context.set_command Examples.greet Context.new), 0%nat, ∅) /\
  "x"%char <> "-"%char /\
  Parser._find_option_short Examples.greet "x" = None /\
  Parser.parse Examples.greet (["-n"; "Ada"] ++ "-x" :: ["Hi"]) =
  Parser.parse Examples.greet (["-n"; "Ada"] ++ ["Hi"]).
Proof.
  assert (Hc : "x"%char <> "-"%char) by discriminate.
  split; [reflexivity|]. split; [exact Hc|]. split; [reflexivity|].
  exact (unknown_short_flag_dropped_alone Examples.greet ["-n"; "Ada"] ["Hi"]
           "x" _ eq_refl Hc eq_refl).
Defined.

(** The short spelling [-c v] and the long spelling [--key v] of one
    option give the same parse. *)
Theorem short_and_long_flag_agree (cmd : Command.t) (pre post : list string)
    (key v : string) (c : ascii) (o : Option.t) (st : Prefix.state) :
  Prefix.reads cmd (Prefix.start cmd) pre = Some st ->
  Str.contains "=" key = false ->
  c <> "-"%char ->
  Parser._find_option cmd key = Some o ->
  Parser._find_option_short cmd (String c "") = Some o ->
  Parser.parse cmd (pre ++ String "-" (String c "") :: v :: post) =
  Parser.parse cmd (pre ++ ("--" ++ key)%string :: v :: post).
Proof.
  intros Hr Hk Hc Hlong Hshort. rewrite !(parse_reads _ _ _ _ Hr).
  destruct st as [[ctx idx] col]. cbn [Prefix.resume].
  rewrite (loop_short_known _ _ _ _ _ _ _ _ Hc Hshort).
  rewrite loop_long_two_tokens by done.
  unfold Parser.store_long. by rewrite Hlong.
Qed.

Lemma short_and_long_flag_agree_witness :
  Str.contains "=" "count" = false /\
  "c"%char <> "-"%char /\
  Parser._find_option Examples.greet "count"
  = Some (Option.mk "count" "c" py_int (VInt 1) false "" false) /\
  Parser._find_option_short Examples.greet "c"
  = Some (Option.mk "count" "c" py_int (VInt 1) false "" false) /\
  Parser.parse Examples.greet ([] ++ "-c" :: "3" :: ["Hi"]) =
  Parser.parse Examples.greet ([] ++ ("--" ++ "count")%string :: "3" :: ["Hi"]).
Proof.
  assert (Hc : "c"%char <> "-"%char) by discriminate.
  split; [reflexivity|]. split; [exact Hc|].
  split; [reflexivity|]. split; [reflexivity|].
  exact (short_and_long_flag_agree Examples.greet [] ["Hi"] "count" "3" "c"
           (Option.mk "count" "c" py_int (VInt 1) false "" false)
           (Prefix.start Examples.greet) eq_refl eq_refl Hc eq_refl eq_refl).
Defined.

Lemma set_option_twice (n : string) (v w : value) (ctx : Context.t) :
  Context.set_option n w (Context.set_option n v ctx) = Context.set_option n w ctx.
Proof. unfold Context.set_option. simpl. by rewrite insert_insert_eq. Qed.

(** Of two occurrences of an option the later one wins: the earlier value
    is overwritten, also when the option is declared [multiple], provided
    the earlier value converts (else the parse raises there). *)
Theorem repeated_option_last_wins (cmd : Command.t) (pre post : list string)
    (key a b : string) (o : Option.t) (va : value) (st : Prefix.state) :
  Prefix.reads cmd (Prefix.start cmd) pre = Some st ->
  Str.contains "=" key = false ->
  Parser._find_option cmd key = Some o ->
  Parser._convert (Some a) (Option.type o) = Ok va ->
  Parser.parse cmd
    (pre ++ ("--" ++ key)%string :: a :: ("--" ++ key)%string :: b :: post) =
  Parser.parse cmd (pre ++ ("--" ++ key)%string :: b :: post).
Proof.
  intros Hr Hk Ho Ha. rewrite !(parse_reads _ _ _ _ Hr).
  destruct st as [[ctx idx] col]. cbn [Prefix.resume].
  rewrite !loop_long_two_tokens by done.
  unfold Parser.store_long, Parser.store. rewrite Ho, Ha. cbn [bind].
  rewrite loop_long_two_tokens by done.
  unfold Parser.store_long, Parser.store. rewrite Ho.
  destruct (Parser._convert (Some b) (Option.type o)) as [vb|e]; [|reflexivity].
  cbn [bind]. by rewrite set_option_twice.
Qed.

Lemma repeated_option_last_wins_witness :
  Option.multiple (Option.mk "mode" "m" py_str (VStr "fast") false "" true) = true /\
  Parser._find_option Registered.copy "mode"
  = Some (Option.mk "mode" "m" py_str (VStr "fast") false "" true) /\
  Parser.parse Registered.copy
    ([] ++ ("--" ++ "mode")%string :: "a" :: ("--" ++ "mode")%string :: "b" :: []) =
  Parser.parse Registered.copy ([] ++ ("--" ++ "mode")%string :: "b" :: []).
Proof.
  split; [reflexivity|]. split; [reflexivity|].
  exact (repeated_option_last_wins Registered.copy [] [] "mode" "a" "b"
           (Option.mk "mode" "m" py_str (VStr "fast") false "" true) (VStr "a")
           (Prefix.start Registered.copy) eq_refl eq_refl eq_refl eq_refl).
Defined.

(** Once every declared argument has been bound, a further positional
    token that names no subcommand is dropped. *)
Theorem surplus_positional_dropped (cmd : Command.t) (pre post : list string)
    (tok : string) (ctx : Context.t) (idx : nat) (col : gmap string (list value)) :
  Prefix.reads cmd (Prefix.start cmd) pre = Some (ctx, idx, col) ->
  length (Command.arguments cmd) <= idx ->
  Prefix.bare tok = true ->
  Dict.get tok (Command.subcommands cmd) = None ->
  Parser.parse cmd (pre ++ tok :: post) = Parser.parse cmd (pre ++ post).
Proof.
  intros Hr Hidx Hb Hs. rewrite !(parse_reads _ _ _ _ Hr). cbn [Prefix.resume].
  apply bare_spec in Hb as [H1 H2]. cbn [Parser.loop].
  rewrite H1, H2, Hs. by rewrite (proj2 (lookup_ge_None _ _) Hidx).
Qed.

Lemma surplus_positional_dropped_witness :
  Prefix.reads Registered.copy (Prefix.start Registered.copy) ["a.txt"]
  = Some (Context.set_argument "source" (VStr "a.txt")
            (Context.set_command Registered.copy Context.new), 1%nat, ∅) /\
  Parser.parse Registered.copy (["a.txt"] ++ "b.txt" :: ["-m"; "slow"]) =
  Parser.parse Registered.copy (["a.txt"] ++ ["-m"; "slow"]).
Proof.
  split; [reflexivity|].
  refine (surplus_positional_dropped Registered.copy ["a.txt"] ["-m"; "slow"]
            "b.txt" _ 1%nat ∅ eq_refl _ eq_refl eq_refl).
  simpl. lia.
Defined.

End Flags.

(** ** Positional tokens and the declared arguments *)

Section Binding.

Lemma names_differ (args : list Argument.t) (i j : nat) (a b : Argument.t) :
  NoDup (map Argument.name args) ->
  args !! i = Some a -> args !! j = Some b -> i <> j ->
  Argument.name a <> Argument.name b.
Proof.
  intros Hnd Hi Hj Hne Heq. apply Hne.
  apply (NoDup_lookup _ i j (Argument.name a) Hnd).
  - by rewrite list_lookup_fmap, Hi.
  - by rewrite list_lookup_fmap, Hj, Heq.
Qed.

(** From a state with nothing collected, at positional index [idx]: what
    the context holds under a name that no later argument has stays, and
    the argument at index [j] gets the token number [j - idx] of the
    positional tokens ahead, or its default. *)
Lemma loop_binds (cmd : Command.t) (n : nat) :
  Forall (fun a => Positional.variadic a = false) (Command.arguments cmd) ->
  NoDup (map Argument.name (Command.arguments cmd)) ->
  forall (args : list string) (ctx : Context.t) (idx : nat) (r : Context.t),
    length args <= n ->
    Forall (fun t => Dict.get t (Command.subcommands cmd) = None)
      (Positional.positionals cmd args) ->
    Parser.loop cmd ctx idx ∅ args = Ok r ->
    (forall m v,
       Context.arguments ctx !! m = Some v ->
       (forall j a, idx <= j -> Command.arguments cmd !! j = Some a ->
                    Argument.name a <> m) ->
       Context.arguments r !! m = Some v) /\
    (forall j a,
       idx <= j -> Command.arguments cmd !! j = Some a ->
       Context.arguments ctx !! Argument.name a = None ->
       match Positional.positionals cmd args !! (j - idx) with
       | Some t =>
           exists v, Parser._convert (Some t) (Argument.type a) = Ok v /\
                     Context.arguments r !! Argument.name a = Some v
       | None => Context.arguments r !! Argument.name a = Some (Argument.default a)
       end).
Proof.
  intros Hplain Hnd.
  induction n as [|n IH]; intros args ctx idx r Hlen Hpos Hl;
    (destruct args as [|arg rest];
     [ injection Hl as <-; split;
       [ intros m v Hm _; by rewrite finish_arguments, lookup_empty, Hm
       | intros j a _ Ha Hnone; cbn [Positional.positionals];
         rewrite lookup_nil, finish_arguments, lookup_empty, Hnone;
         rewrite (find_argument_NoDup _ a Hnd); [done|];
         apply list_elem_of_In; by apply (list_elem_of_lookup_2 _ j) ]
     | ]);
    [ simpl in Hlen; lia | ].
  simpl in Hlen.
  destruct (loop_iteration cmd ctx idx ∅ arg rest)
    as [([[ctx' idx'] col'] & rest' & _ & Hlen' & Hp & He)
       |[(tname & s & _ & He)|(sub & _ & Hsub & Hp & He)]];
    rewrite He in Hl; [|discriminate|].
  - destruct Hp as [[Hp (Hargs & Hidx & Hcol)]|(_ & Hp & Htook)];
      rewrite Hp in *.
    + cbn [fst snd] in Hargs, Hidx, Hcol. subst idx' col'.
      destruct (IH rest' ctx' idx r) as [Hf Hb]; [lia|done|done|].
      rewrite Hargs in Hf, Hb. by split.
    + apply Forall_cons in Hpos as [_ Hpos].
      unfold Loop.took in Htook. cbn [fst snd] in Htook.
      destruct (Command.arguments cmd !! idx) as [a0|] eqn:Ea0.
      * destruct Htook as (v0 & Hv0 & Hst).
        assert (Positional.variadic a0 = false) as Hv.
        { apply list_elem_of_lookup_2 in Ea0.
          by apply (proj1 (Forall_forall _ _) Hplain a0). }
        rewrite Hv in Hst. injection Hst as -> -> ->.
        destruct (IH rest' (Context.set_argument (Argument.name a0) v0 ctx)
                    (S idx) r) as [Hf Hb]; [lia|done|done|].
        cbn [Context.set_argument Context.arguments] in Hf, Hb.
        split.
        -- intros m v Hm Hlater. apply Hf.
           ++ rewrite lookup_insert_ne; [done|]. by apply (Hlater idx a0).
           ++ intros j a Hj. apply Hlater. lia.
        -- intros j a Hj Ha Hnone.
           destruct (decide (j = idx)) as [->|Hne].
           ++ rewrite Ea0 in Ha. injection Ha as <-.
              rewrite Nat.sub_diag. cbn [lookup list_lookup].
              exists v0. split; [done|]. apply Hf.
              ** by rewrite lookup_insert_eq.
              ** intros j a Hj' Ha.
                 apply (names_differ _ j idx a a0 Hnd Ha Ea0). lia.
           ++ replace (j - idx)%nat with (S (j - S idx)) by lia.
              cbn [lookup list_lookup]. apply Hb; [lia|done|].
              rewrite lookup_insert_ne; [done|].
              apply (names_differ _ idx j a0 a Hnd Ea0 Ha). lia.
      * injection Htook as -> -> ->.
        destruct (IH rest' ctx idx r) as [Hf Hb]; [lia|done|done|].
        split; [done|]. intros j a Hj Ha.
        apply lookup_ge_None in Ea0. apply lookup_lt_Some in Ha. lia.
  - rewrite Hp in Hpos. apply Forall_cons in Hpos as [Hnone _]. congruence.
Qed.

(** Positional tokens are bound in order.  For a command without a
    variadic argument, whose argument names are pairwise distinct, and a
    stream whose positional tokens name no subcommand: the [i]-th declared
    argument holds the converted [i]-th positional token, wherever flags
    stand between the tokens, and its default when the stream has fewer
    positional tokens. *)
Theorem positionals_bind_in_order (cmd : Command.t) (args : list string)
    (r : Context.t) :
  Forall (fun a => Positional.variadic a = false) (Command.arguments cmd) ->
  NoDup (map Argument.name (Command.arguments cmd)) ->
  Forall (fun t => Dict.get t (Command.subcommands cmd) = None)
    (Positional.positionals cmd args) ->
  Parser.parse cmd args = Ok r ->
  forall (i : nat) (a : Argument.t),
    Command.arguments cmd !! i = Some a ->
    match Positional.positionals cmd args !! i with
    | Some t =>
        exists v, Parser._convert (Some t) (Argument.type a) = Ok v /\
                  Context.arguments r !! Argument.name a = Some v
    | None => Context.arguments r !! Argument.name a = Some (Argument.default a)
    end.
Proof.
  intros Hplain Hnd Hpos Hl i a Ha.
  destruct (loop_binds cmd (length args) Hplain Hnd args
              (Context.set_command cmd Context.new) 0%nat r) as [_ Hb];
    [lia|done|done|].
  specialize (Hb i a). rewrite Nat.sub_0_r in Hb.
  apply Hb; [lia|done|]. apply lookup_empty.
Qed.

Lemma positionals_bind_in_order_witness :
  let r := Parser.finish Registered.resize
             (Context.set_argument "image" (VStr "cat.png")
                (Context.set_option "mode" (VStr "slow")
                   (Context.set_argument "width" (VInt 12)
                      (Context.set_command Registered.resize Context.new)))) ∅ in
  let r' := Parser.finish Registered.resize
              (Context.set_argument "width" (VInt 7)
                 (Context.set_option "mode" (VStr "slow")
                    (Context.set_command Registered.resize Context.new))) ∅ in
  Parser.parse Registered.resize ["12"; "-m"; "slow"; "cat.png"] = Ok r /\
  Context.arguments r !! "width" = Some (VInt 12) /\
  Context.arguments r !! "image" = Some (VStr "cat.png") /\
  Parser.parse Registered.resize ["--mode=slow"; "7"] = Ok r' /\
  Context.arguments r' !! "width" = Some (VInt 7) /\
  Context.arguments r' !! "image" = Some VNone.
Proof.
  intros r r'.
  assert (Forall (fun a => Positional.variadic a = false)
            (Command.arguments Registered.resize)) as Hplain
    by (repeat constructor).
  assert (NoDup (map Argument.name (Command.arguments Registered.resize)))
    as Hnd by (by apply (bool_decide_unpack _)).
  assert (Parser.parse Registered.resize ["12"; "-m"; "slow"; "cat.png"] = Ok r)
    as Hr by reflexivity.
  assert (Parser.parse Registered.resize ["--mode=slow"; "7"] = Ok r')
    as Hr' by reflexivity.
  assert (Forall (fun t => Dict.get t (Command.subcommands Registered.resize) = None)
            (Positional.positionals Registered.resize
               ["12"; "-m"; "slow"; "cat.png"])) as Hpos
    by (vm_compute; repeat constructor).
  assert (Forall (fun t => Dict.get t (Command.subcommands Registered.resize) = None)
            (Positional.positionals Registered.resize ["--mode=slow"; "7"]))
    as Hpos' by (vm_compute; repeat constructor).
  pose proof (positionals_bind_in_order Registered.resize _ r Hplain Hnd Hpos Hr)
    as H.
  pose proof (positionals_bind_in_order Registered.resize _ r' Hplain Hnd Hpos' Hr')
    as H'.
  split; [done|]. split; [|split; [|split; [done|split]]].
  - destruct (H 0%nat _ eq_refl) as (v & Hv & Hw).
    vm_compute in Hv. injection Hv as <-. exact Hw.
  - destruct (H 1%nat _ eq_refl) as (v & Hv & Hw).
    vm_compute in Hv. injection Hv as <-. exact Hw.
  - destruct (H' 0%nat _ eq_refl) as (v & Hv & Hw).
    vm_compute in Hv. injection Hv as <-. exact Hw.
  - exact (H' 1%nat _ eq_refl).
Defined.

End Binding.

(** ** Reading a context, and booleans *)

Section Reading.

(** After a parse, [ctx.get(name, default)] returns the caller's default
    exactly for the names that the resolved command declares neither as an
    option nor as an argument; for a declared name the default of the
    caller is never used (the value may be [None]). *)
Theorem get_uses_default_only_for_undeclared_names (cmd : Command.t)
    (args : list string) (r : Context.t) (c : Command.t) (n : string) :
  Parser.parse cmd args = Ok r ->
  Context.command r = Some c ->
  (In n (map Option.name (Command.options c)) \/
   In n (map Argument.name (Command.arguments c)) ->
   exists v, forall d, Context.get n d r = v) /\
  (~ In n (map Option.name (Command.options c)) ->
   ~ In n (map Argument.name (Command.arguments c)) ->
   forall d, Context.get n d r = d).
Proof.
  intros H Hc.
  destruct (loop_shape (length args) args cmd
              (Context.set_command cmd Context.new) 0%nat ∅ r)
    as [(c' & Hc' & _ & Ho & Ha) _]; [lia|done|apply start_declared|done|].
  rewrite Hc in Hc'. injection Hc' as <-. unfold Context.get. split.
  - intros [Hin|Hin].
    + apply Ho in Hin as [v ->]. by exists v.
    + apply Ha in Hin as [v Hv]. rewrite Hv.
      destruct (Context.options r !! n) as [w|]; [by exists w|by exists v].
  - intros Hno Hna d.
    destruct (Context.options r !! n) as [w|] eqn:E1.
    { exfalso. apply Hno, Ho. by rewrite E1. }
    destruct (Context.arguments r !! n) as [w|] eqn:E2; [|done].
    exfalso. apply Hna, Ha. by rewrite E2.
Qed.

(** [greet] of [example_usage] reads [ctx.get("name", "World")] without
    declaring an option [name]: it sees its own default. *)
Lemma get_uses_default_only_for_undeclared_names_witness :
  Parser.parse (CLI.root Examples.app) ["greet"] = Ok Examples.greet_ctx /\
  forall d, Context.get "name" d Examples.greet_ctx = d.
Proof.
  split; [reflexivity|].
  refine (proj2 (get_uses_default_only_for_undeclared_names
                   (CLI.root Examples.app) ["greet"] Examples.greet_ctx
                   (Command.mk "greet" (Fn 1) "Greet someone" [] [] [])
                   "name" eq_refl eq_refl) _ _); simpl; tauto.
Defined.

Lemma lower_char_idempotent (a : ascii) :
  Str.lower_char (Str.lower_char a) = Str.lower_char a.
Proof.
  destruct a as [[] [] [] [] [] [] [] []]; reflexivity.
Qed.

Lemma lower_idempotent (s : string) : Str.lower (Str.lower s) = Str.lower s.
Proof.
  induction s as [|a s IH]; [reflexivity|].
  simpl. by rewrite lower_char_idempotent, IH.
Qed.

(** The conversion to [bool] never raises and does not look at the case of
    the letters: a token and its lower-case form convert to the same
    boolean, which is true exactly when the lower-case form is one of the
    four words. *)
Lemma bool_conversion_ignores_case (s : string) :
  exists b,
    Parser._convert (Some s) TBool = Ok (VBool b) /\
    Parser._convert (Some (Str.lower s)) TBool = Ok (VBool b) /\
    (Str.mem (Str.lower s) ["true"; "1"; "yes"; "on"] = true <-> b = true).
Proof.
  eexists. split; [reflexivity|]. split; [|done].
  simpl. by rewrite lower_idempotent.
Qed.

Example bool_spellings :
  Parser._convert (Some "TRUE") TBool = Ok (VBool true) /\
  Parser._convert (Some "On") TBool = Ok (VBool true) /\
  Parser._convert (Some "yEs") TBool = Ok (VBool true) /\
  Parser._convert (Some "1") TBool = Ok (VBool true) /\
  Parser._convert (Some "y") TBool = Ok (VBool false) /\
  Parser._convert (Some "") TBool = Ok (VBool false) /\
  Parser._convert (Some "0") TBool = Ok (VBool false).
Proof. repeat split. Qed.

End Reading.

(** ** Registration *)

Section Registration.

Lemma get_set_eq (k : string) (c : Command.t) (d : list (string * Command.t)) :
  Dict.get k (Dict.set k c d) = Some c.
Proof.
  induction d as [|[k' c'] d IH]; simpl.
  - by rewrite String.eqb_refl.
  - destruct (String.eqb k' k) eqn:E; simpl; rewrite E; [done|exact IH].
Qed.

Lemma get_set_ne (k k' : string) (c : Command.t) (d : list (string * Command.t)) :
  k' <> k -> Dict.get k' (Dict.set k c d) = Dict.get k' d.
Proof.
  intros Hne. induction d as [|[k0 c0] d IH]; simpl.
  - by rewrite (proj2 (String.eqb_neq k k')).
  - destruct (String.eqb_spec k0 k) as [->|Hk]; simpl.
    + by rewrite (proj2 (String.eqb_neq k k')).
    + by rewrite IH.
Qed.

Lemma keys_set (k : string) (c : Command.t) (d : list (string * Command.t)) :
  map fst (Dict.set k c d) = map fst d \/
  (~ In k (map fst d) /\ map fst (Dict.set k c d) = map fst d ++ [k]).
Proof.
  induction d as [|[k0 c0] d IH]; simpl.
  - right. auto.
  - destruct (String.eqb_spec k0 k) as [->|Hk]; simpl; [by left|].
    destruct IH as [->|[Hnot ->]]; [by left|].
    right. split; [|done]. intros [?|?]; [done|by apply Hnot].
Qed.

Lemma keyed_set (k : string) (c : Command.t) (d : list (string * Command.t)) :
  Command.name c = k -> Tree.keyed d -> Tree.keyed (Dict.set k c d).
Proof.
  intros Hname [Hnd Hall]. split.
  - destruct (keys_set k c d) as [->|[Hnot ->]]; [done|].
    apply NoDup_app. split; [done|]. split.
    + intros x Hx Hk. apply list_elem_of_singleton in Hk as ->.
      by apply Hnot, list_elem_of_In.
    + apply NoDup_singleton.
  - clear Hnd. induction d as [|[k0 c0] d IH]; simpl.
    + by repeat constructor.
    + apply Forall_cons in Hall as [H0 Hall].
      destruct (String.eqb_spec k0 k) as [->|Hk]; constructor; auto.
Qed.

Lemma keyed_update_first (fn : Handler) (f : Command.t -> Command.t)
    (d : list (string * Command.t)) :
  (forall c, Command.name (f c) = Command.name c) ->
  Tree.keyed d -> Tree.keyed (CLI.update_first fn f d).
Proof.
  intros Hf [Hnd Hall].
  assert (Hk : map fst (CLI.update_first fn f d) = map fst d).
  { clear. induction d as [|[k c] d IH]; simpl; [done|].
    destruct (Handler_eqb (Command.handler c) fn); simpl; [done|by rewrite IH]. }
  split; [by rewrite Hk|].
  clear Hnd Hk. induction d as [|[k c] d IH]; simpl; [done|].
  apply Forall_cons in Hall as [H0 Hall].
  destruct (Handler_eqb (Command.handler c) fn); constructor; auto.
  simpl in *. by rewrite Hf.
Qed.

(** [@app.command(name)] stores the new command under [name], in place
    of any command registered under that name before, whose options and
    arguments are lost; the other commands and the hooks stay as they
    are, and the decorated function is returned. *)
Theorem command_registers_and_replaces (cli : CLI.t) (name help : string)
    (fn : Handler) :
  Dict.get name
    (Command.subcommands (CLI.root (fst (CLI.command name help fn cli))))
  = Some (Command.mk name fn help [] [] []) /\
  (forall k, k <> name ->
     Dict.get k (Command.subcommands (CLI.root (fst (CLI.command name help fn cli))))
     = Dict.get k (Command.subcommands (CLI.root cli))) /\
  snd (CLI.command name help fn cli) = fn /\
  CLI.before (fst (CLI.command name help fn cli)) = CLI.before cli /\
  CLI.after (fst (CLI.command name help fn cli)) = CLI.after cli /\
  CLI.error (fst (CLI.command name help fn cli)) = CLI.error cli.
Proof.
  simpl. split; [apply get_set_eq|]. split; [|done].
  intros k Hk. by apply get_set_ne.
Qed.

Lemma built_root (cli : CLI.t) :
  Registered.built cli ->
  Command.handler (CLI.root cli) = DefaultHandler /\
  Command.options (CLI.root cli) = [] /\
  Command.arguments (CLI.root cli) = [] /\
  Tree.keyed (Command.subcommands (CLI.root cli)).
Proof.
  induction 1 as [name version help
                 |cli name help fn _ (Hh & Ho & Ha & Hk)
                 |cli name short type default required help fn _ (Hh & Ho & Ha & Hk)
                 |cli event h _ (Hh & Ho & Ha & Hk)
                 |cli lambda name help _ (Hh & Ho & Ha & Hk)
                 |cli g name help fn _ (Hh & Ho & Ha & Hk)].
  - simpl. do 3 (split; [done|]). split; constructor.
  - simpl. do 3 (split; [done|]). by apply keyed_set.
  - unfold CLI.option.
    destruct (CLI._find_command_for_handler cli fn); simpl; [|done].
    do 3 (split; [done|]). by apply keyed_update_first.
  - unfold CLI.add_hook.
    destruct (String.eqb event "before"); [done|].
    destruct (String.eqb event "after"); [done|].
    by destruct (String.eqb event "error").
  - simpl. do 3 (split; [done|]). by apply keyed_set.
  - simpl. do 3 (split; [done|]). by apply keyed_update_first.
Qed.

(** Whatever registrations built the application, its root keeps the
    default handler and has neither options nor arguments of its own, and
    its commands have distinct keys, each the name of its command. *)
Theorem registration_keeps_the_root (cli : CLI.t) :
  Registered.built cli ->
  Command.handler (CLI.root cli) = DefaultHandler /\
  Command.options (CLI.root cli) = [] /\
  Command.arguments (CLI.root cli) = [] /\
  Tree.keyed (Command.subcommands (CLI.root cli)).
Proof. apply built_root. Qed.

Lemma example_app_built : Registered.built Registered.example_app.
Proof.
  unfold Registered.example_app.
  apply (Registered.built_group_command _ (Group.mk "db" "Database commands" 0)).
  apply (Registered.built_group _ 0).
  apply (Registered.built_command _ "calc").
  apply (Registered.built_command _ "greet").
  apply Registered.built_new.
Defined.

Lemma registration_keeps_the_root_witness :
  Registered.built Registered.example_app /\
  Command.handler (CLI.root Registered.example_app) = DefaultHandler /\
  Command.options (CLI.root Registered.example_app) = [] /\
  Command.arguments (CLI.root Registered.example_app) = [] /\
  Tree.keyed (Command.subcommands (CLI.root Registered.example_app)).
Proof.
  split; [exact example_app_built|].
  exact (registration_keeps_the_root Registered.example_app example_app_built).
Defined.

Lemma first_with_handler_keyed (fn : Handler) (d : list (string * Command.t))
    (cmd : Command.t) :
  Forall (fun kc => fst kc = Command.name (snd kc)) d ->
  CLI.first_with_handler fn (Dict.values d) = Some cmd ->
  In (Command.name cmd) (map fst d).
Proof.
  induction d as [|[k c] d IH]; simpl; [done|].
  intros Hall. apply Forall_cons in Hall as [Hk Hall]. simpl in Hk.
  destruct (Handler_eqb (Command.handler c) fn).
  - intros [= <-]. auto.
  - intros H. right. by apply IH.
Qed.

Lemma update_first_lookup (fn : Handler) (f : Command.t -> Command.t)
    (d : list (string * Command.t)) (cmd : Command.t) :
  Tree.keyed d ->
  CLI.first_with_handler fn (Dict.values d) = Some cmd ->
  Dict.get (Command.name cmd) (CLI.update_first fn f d) = Some (f cmd) /\
  forall k, k <> Command.name cmd ->
    Dict.get k (CLI.update_first fn f d) = Dict.get k d.
Proof.
  intros [Hnd Hall]. induction d as [|[k c] d IH]; simpl; [done|].
  apply NoDup_cons in Hnd as [Hk Hnd].
  apply Forall_cons in Hall as [Hkc Hall]. simpl in Hkc.
  destruct (Handler_eqb (Command.handler c) fn).
  - intros [= <-]. simpl. rewrite Hkc, String.eqb_refl. split; [done|].
    intros k' Hk'. by rewrite (proj2 (String.eqb_neq _ _)).
  - intros Hf.
    assert (Hne : k <> Command.name cmd).
    { intros ->. apply Hk, list_elem_of_In.
      by apply (first_with_handler_keyed fn). }
    destruct (IH Hnd Hall Hf) as [H1 H2]. simpl.
    rewrite (proj2 (String.eqb_neq _ _) Hne). split; [done|].
    intros k' Hk'. destruct (String.eqb k k'); [done|by apply H2].
Qed.

(** [@app.option(...)] on a function that handles a top-level command of
    an application built by registration: the option is appended to the
    first command, in order of registration, that the function handles;
    every other command is left as it is. *)
Theorem option_attaches_to_first_command (cli : CLI.t) (fn : Handler)
    (cmd : Command.t) (name short : string) (type : PyType) (default : value)
    (required : bool) (help : string) :
  Registered.built cli ->
  CLI._find_command_for_handler cli fn = Some cmd ->
  Dict.get (Command.name cmd)
    (Command.subcommands
       (CLI.root (fst (CLI.option name short type default required help fn cli))))
  = Some (CLI.append_option
            (Option.mk name short type default required help false) cmd) /\
  (forall k, k <> Command.name cmd ->
     Dict.get k
       (Command.subcommands
          (CLI.root (fst (CLI.option name short type default required help fn cli))))
     = Dict.get k (Command.subcommands (CLI.root cli))) /\
  snd (CLI.option name short type default required help fn cli) = fn.
Proof.
  intros Hb Hf.
  destruct (built_root cli Hb) as (_ & _ & _ & Hk).
  unfold CLI.option. rewrite Hf. simpl.
  destruct (update_first_lookup fn
              (CLI.append_option
                 (Option.mk name short type default required help false))
              _ cmd Hk Hf) as [H1 H2].
  by split; [|split].
Qed.

Lemma app_built : Registered.built Examples.app.
Proof.
  apply (Registered.built_command _ "greet"). apply Registered.built_new.
Defined.

Lemma option_attaches_to_first_command_witness :
  Registered.built Examples.app /\
  CLI._find_command_for_handler Examples.app (Fn 1)
  = Some (Command.mk "greet" (Fn 1) "Greet someone" [] [] []) /\
  Dict.get "greet"
    (Command.subcommands
       (CLI.root (fst (CLI.option "count" "c" py_int (VInt 1) false "" (Fn 1)
                         Examples.app))))
  = Some (Command.mk "greet" (Fn 1) "Greet someone"
            [Option.mk "count" "c" py_int (VInt 1) false "" false] [] []).
Proof.
  split; [exact app_built|]. split; [reflexivity|].
  exact (proj1 (option_attaches_to_first_command Examples.app (Fn 1)
                  (Command.mk "greet" (Fn 1) "Greet someone" [] [] [])
                  "count" "c" py_int (VInt 1) false "" app_built eq_refl)).
Defined.

(** Registering under [k] a command handled by a function that handles no
    other command, and then changing the first command of that function. *)
Lemma update_after_set (fn : Handler) (f : Command.t -> Command.t) (k : string)
    (c : Command.t) (d : list (string * Command.t)) :
  Forall (fun kc => Handler_eqb (Command.handler (snd kc)) fn = false) d ->
  Handler_eqb (Command.handler c) fn = true ->
  CLI.first_with_handler fn (Dict.values (Dict.set k c d)) = Some c /\
  Dict.get k (CLI.update_first fn f (Dict.set k c d)) = Some (f c) /\
  forall k', k' <> k ->
    Dict.get k' (CLI.update_first fn f (Dict.set k c d)) = Dict.get k' d.
Proof.
  intros Hall Hc. induction d as [|[k0 c0] d IH]; simpl.
  - rewrite Hc. simpl. rewrite String.eqb_refl. do 2 (split; [done|]).
    intros k' Hk'. by rewrite (proj2 (String.eqb_neq k k')).
  - apply Forall_cons in Hall as [H0 Hall]. simpl in H0.
    destruct (String.eqb_spec k0 k) as [->|Hk]; simpl.
    + rewrite Hc. simpl. rewrite String.eqb_refl. do 2 (split; [done|]).
      intros k' Hk'. by rewrite (proj2 (String.eqb_neq k k')).
    + rewrite H0. simpl. rewrite (proj2 (String.eqb_neq _ _) Hk).
      destruct (IH Hall) as (H1 & H2 & H3). do 2 (split; [done|]).
      intros k' Hk'. destruct (String.eqb k0 k'); [done|by apply H3].
Qed.

Lemma Handler_eqb_refl (fn : Handler) : Handler_eqb fn fn = true.
Proof. destruct fn; simpl; [done|apply Nat.eqb_refl]. Qed.

Lemma first_with_handler_unregistered (fn : Handler)
    (d : list (string * Command.t)) :
  Forall (fun kc => Handler_eqb (Command.handler (snd kc)) fn = false) d ->
  CLI.first_with_handler fn (Dict.values d) = None.
Proof.
  induction 1 as [|[k c] d H0 _ IH]; simpl; [done|].
  simpl in H0. by rewrite H0.
Qed.

(** The order of the two decorators decides.  For a function that handles
    no command yet: [@app.option] applied after [@app.command] (written
    above it) gives the command the option; applied before (written below
    it), the option is lost without a word and the command is registered
    with no option. *)
Theorem option_needs_a_registered_command (cli : CLI.t) (fn : Handler)
    (cname chelp name short : string) (type : PyType) (default : value)
    (required : bool) (help : string) :
  Registered.unregistered fn cli ->
  Dict.get cname
    (Command.subcommands
       (CLI.root
          (fst (CLI.option name short type default required help fn
                  (fst (CLI.command cname chelp fn cli))))))
  = Some (Command.mk cname fn chelp
            [Option.mk name short type default required help false] [] []) /\
  CLI.option name short type default required help fn cli = (cli, fn) /\
  Dict.get cname
    (Command.subcommands
       (CLI.root
          (fst (CLI.command cname chelp fn
                  (fst (CLI.option name short type default required help fn cli))))))
  = Some (Command.mk cname fn chelp [] [] []).
Proof.
  intros Hun.
  assert (Hnone : CLI.option name short type default required help fn cli
                  = (cli, fn)).
  { unfold CLI.option, CLI._find_command_for_handler.
    by rewrite (first_with_handler_unregistered fn _ Hun). }
  split; [|split; [exact Hnone|]].
  - destruct (update_after_set fn
                (CLI.append_option
                   (Option.mk name short type default required help false))
                cname (Command.mk cname fn chelp [] [] [])
                (Command.subcommands (CLI.root cli)) Hun (Handler_eqb_refl fn))
      as (Hf & Hg & _).
    unfold CLI.option, CLI._find_command_for_handler. simpl.
    rewrite Hf. simpl. exact Hg.
  - rewrite Hnone. simpl. apply get_set_eq.
Qed.

Lemma option_needs_a_registered_command_witness :
  Registered.unregistered (Fn 7) Examples.app /\
  CLI.option "force" "f" TBool (VBool false) false "" (Fn 7) Examples.app
  = (Examples.app, Fn 7).
Proof.
  assert (H : Registered.unregistered (Fn 7) Examples.app)
    by (repeat constructor).
  split; [exact H|].
  exact (proj1 (proj2 (option_needs_a_registered_command Examples.app (Fn 7)
                         "push" "" "force" "f" TBool (VBool false) false "" H))).
Defined.

(** [Group(app, gname)] followed by [@group.command(cname)]: the group is
    a command of the root, handled by the function of the group, and the
    new command is its child.  The function of the group handles no other
    command of the root. *)
Theorem group_command_is_nested (cli : CLI.t) (lambda : nat)
    (gname ghelp cname chelp : string) (fn : Handler) :
  Registered.unregistered (Fn lambda) cli ->
  Dict.get gname
    (Command.subcommands
       (CLI.root
          (fst (Group.command (snd (Group.new lambda gname ghelp cli))
                  cname chelp fn (fst (Group.new lambda gname ghelp cli))))))
  = Some (Command.mk gname (Fn lambda) ghelp [] []
            [(cname, Command.mk cname fn chelp [] [] [])]) /\
  (forall k, k <> gname ->
     Dict.get k
       (Command.subcommands
          (CLI.root
             (fst (Group.command (snd (Group.new lambda gname ghelp cli))
                     cname chelp fn (fst (Group.new lambda gname ghelp cli))))))
     = Dict.get k (Command.subcommands (CLI.root cli))).
Proof.
  intros Hun. simpl.
  destruct (update_after_set (Fn lambda)
              (Group.add_subcommand cname (Command.mk cname fn chelp [] [] []))
              gname (Command.mk gname (Fn lambda) ghelp [] [] [])
              (Command.subcommands (CLI.root cli)) Hun (Handler_eqb_refl _))
    as (_ & H1 & H2).
  split; [exact H1|exact H2].
Qed.

Lemma group_command_is_nested_witness :
  Registered.unregistered (Fn 0)
    (fst (CLI.command "calc" "Calculator" (Fn 2) Examples.app)) /\
  Dict.get "db" (Command.subcommands (CLI.root Registered.example_app))
  = Some Registered.db_cmd.
Proof.
  assert (H : Registered.unregistered (Fn 0)
                (fst (CLI.command "calc" "Calculator" (Fn 2) Examples.app)))
    by (repeat constructor).
  split; [exact H|].
  exact (proj1 (group_command_is_nested
                  (fst (CLI.command "calc" "Calculator" (Fn 2) Examples.app))
                  0 "db" "Database commands" "migrate" "Run migrations" (Fn 3) H)).
Defined.

Lemma Handler_eqb_neq (f g : Handler) : f <> g -> Handler_eqb f g = false.
Proof.
  destruct f as [|i], g as [|j]; simpl; try done.
  intros H. apply Nat.eqb_neq. congruence.
Qed.

Lemma unregistered_set (fn : Handler) (k : string) (c : Command.t)
    (d : list (string * Command.t)) :
  Handler_eqb (Command.handler c) fn = false ->
  Forall (fun kc => Handler_eqb (Command.handler (snd kc)) fn = false) d ->
  Forall (fun kc => Handler_eqb (Command.handler (snd kc)) fn = false)
    (Dict.set k c d).
Proof.
  intros Hc. induction 1 as [|[k0 c0] d H0 Hall IH]; simpl.
  - by repeat constructor.
  - destruct (String.eqb k0 k); constructor; auto.
Qed.

Lemma unregistered_update_first (fn gn : Handler) (f : Command.t -> Command.t)
    (d : list (string * Command.t)) :
  (forall c, Command.handler (f c) = Command.handler c) ->
  Forall (fun kc => Handler_eqb (Command.handler (snd kc)) fn = false) d ->
  Forall (fun kc => Handler_eqb (Command.handler (snd kc)) fn = false)
    (CLI.update_first gn f d).
Proof.
  intros Hf. induction 1 as [|[k0 c0] d H0 Hall IH]; simpl; [done|].
  destruct (Handler_eqb (Command.handler c0) gn); constructor; auto.
  simpl in *. by rewrite Hf.
Qed.

(** The decorators of the application do not reach the commands of a
    group: for a function registered with [@group.command] only,
    [@app.option] changes nothing and returns the function, and so does
    [@app.argument], which then does not even raise.  Such a command can
    be given neither options nor arguments. *)
Theorem decorators_skip_group_commands (cli : CLI.t) (lambda : nat)
    (gname ghelp cname chelp : string) (fn : Handler)
    (name short : string) (type : PyType) (default : value) (required : bool)
    (help nargs : string) :
  Registered.unregistered fn cli ->
  fn <> Fn lambda ->
  CLI.option name short type default required help fn
    (fst (Group.command (snd (Group.new lambda gname ghelp cli))
            cname chelp fn (fst (Group.new lambda gname ghelp cli))))
  = (fst (Group.command (snd (Group.new lambda gname ghelp cli))
            cname chelp fn (fst (Group.new lambda gname ghelp cli))),
     fn) /\
  CLI.argument name type required help nargs fn
    (fst (Group.command (snd (Group.new lambda gname ghelp cli))
            cname chelp fn (fst (Group.new lambda gname ghelp cli))))
  = Ok (fst (Group.command (snd (Group.new lambda gname ghelp cli))
               cname chelp fn (fst (Group.new lambda gname ghelp cli))),
        fn).
Proof.
  intros Hun Hne.
  assert (Hnone : CLI._find_command_for_handler
                    (fst (Group.command (snd (Group.new lambda gname ghelp cli))
                            cname chelp fn (fst (Group.new lambda gname ghelp cli))))
                    fn = None).
  { unfold CLI._find_command_for_handler. simpl.
    apply first_with_handler_unregistered.
    apply unregistered_update_first; [done|].
    apply unregistered_set; [|exact Hun].
    cbn [Command.handler]. apply Handler_eqb_neq. congruence. }
  unfold CLI.option, CLI.argument. by rewrite Hnone.
Qed.

Lemma decorators_skip_group_commands_witness :
  Registered.unregistered (Fn 3)
    (fst (CLI.command "calc" "Calculator" (Fn 2) Examples.app)) /\
  Fn 3 <> Fn 0 /\
  CLI.option "steps" "s" py_int (VInt 1) false "" (Fn 3) Registered.example_app
  = (Registered.example_app, Fn 3) /\
  CLI.argument "target" py_str true "" "" (Fn 3) Registered.example_app
  = Ok (Registered.example_app, Fn 3).
Proof.
  assert (H : Registered.unregistered (Fn 3)
                (fst (CLI.command "calc" "Calculator" (Fn 2) Examples.app)))
    by (repeat constructor).
  assert (Hne : Fn 3 <> Fn 0) by discriminate.
  split; [exact H|]. split; [exact Hne|].
  exact (decorators_skip_group_commands
           (fst (CLI.command "calc" "Calculator" (Fn 2) Examples.app))
           0 "db" "Database commands" "migrate" "Run migrations" (Fn 3)
           "steps" "s" py_int (VInt 1) false "" "" H Hne).
Defined.

(** A command without options and arguments drops every token of a stream
    in which no positional token names a subcommand. *)
Lemma loop_without_declarations (n : nat) (c : Command.t) :
  Command.options c = [] ->
  Command.arguments c = [] ->
  forall (args : list string) (ctx : Context.t) (idx : nat)
         (col : gmap string (list value)),
    length args <= n ->
    Forall (fun t => Dict.get t (Command.subcommands c) = None)
      (Positional.positionals c args) ->
    Parser.loop c ctx idx col args = Ok (Parser.finish c ctx col).
Proof.
  intros Ho Ha.
  induction n as [|n IH]; intros args ctx idx col Hlen Hpos;
    (destruct args as [|arg rest]; [reflexivity|]);
    [ simpl in Hlen; lia | ].
  simpl in Hlen.
  destruct (loop_iteration c ctx idx col arg rest)
    as [(st' & rest' & Hstep & Hlen' & Hp & He)
       |[(s & e & (tname & call & _ & [(o & Hin & _)|(a & Hin & _)]) & _)
        |(sub & _ & Hsub & Hp & _)]].
  - rewrite He.
    assert (Hpos' : Forall (fun t => Dict.get t (Command.subcommands c) = None)
                      (Positional.positionals c rest')).
    { destruct Hp as [[Hp _]|(_ & Hp & _)]; rewrite Hp in Hpos; [done|].
      by apply Forall_cons in Hpos as [_ ?]. }
    inversion Hstep as [st|? ? ? o ? ? Hin|? ? ? a ? ? Hl|? ? ? a ? ? Hl]; subst.
    + cbn [Prefix.resume]. apply IH; [lia|done].
    + rewrite Ho in Hin. destruct Hin.
    + rewrite Ha in Hl. discriminate.
    + rewrite Ha in Hl. discriminate.
  - rewrite Ho in Hin. destruct Hin.
  - rewrite Ha in Hin. destruct Hin.
  - rewrite Hp in Hpos. apply Forall_cons in Hpos as [Hnone _]. congruence.
Qed.

Lemma parse_without_declarations (c : Command.t) (args : list string) :
  Command.options c = [] ->
  Command.arguments c = [] ->
  Forall (fun t => Dict.get t (Command.subcommands c) = None)
    (Positional.positionals c args) ->
  Parser.parse c args = Ok (Context.mk ∅ ∅ None (Some c)).
Proof.
  intros Ho Ha Hpos. unfold Parser.parse.
  rewrite (loop_without_declarations (length args) c Ho Ha) by (lia || done).
  unfold Parser.finish, Parser._apply_defaults. rewrite Ho, Ha.
  by rewrite map_fold_empty.
Qed.

Lemma no_subcommand_no_token (c : Command.t) (l : list string) :
  Command.subcommands c = [] ->
  Forall (fun t => Dict.get t (Command.subcommands c) = None) l.
Proof. intros ->. by apply Forall_forall. Qed.

(** A command that declares no option, no argument and no subcommand, as
    every command registered by [@app.command] alone is, accepts every
    stream of tokens and keeps nothing of it: the context holds no option
    and no argument, so [ctx.get] always returns the default of the
    caller. *)
Theorem plain_command_ignores_its_tokens (c : Command.t) (args : list string) :
  Command.options c = [] ->
  Command.arguments c = [] ->
  Command.subcommands c = [] ->
  Parser.parse c args = Ok (Context.mk ∅ ∅ None (Some c)) /\
  forall key d, Context.get key d (Context.mk ∅ ∅ None (Some c)) = d.
Proof.
  intros Ho Ha Hs. split.
  - apply parse_without_declarations; [done|done|].
    by apply no_subcommand_no_token.
  - intros key d. unfold Context.get. simpl. by rewrite !lookup_empty.
Qed.

(** [greet] of [example_usage] is given [--name Ada --count 3] and sees
    none of it. *)
Lemma plain_command_ignores_its_tokens_witness :
  Parser.parse (Command.mk "greet" (Fn 1) "Greet someone" [] [] [])
    ["--name"; "Ada"; "--count"; "3"]
  = Ok (Context.mk ∅ ∅ None
          (Some (Command.mk "greet" (Fn 1) "Greet someone" [] [] []))) /\
  forall key d,
    Context.get key d
      (Context.mk ∅ ∅ None
         (Some (Command.mk "greet" (Fn 1) "Greet someone" [] [] []))) = d.
Proof.
  exact (plain_command_ignores_its_tokens
           (Command.mk "greet" (Fn 1) "Greet someone" [] [] [])
           ["--name"; "Ada"; "--count"; "3"] eq_refl eq_refl eq_refl).
Defined.

End Registration.

(** ** More on [CLI.run] *)

Section Running.

(** With no token, or with [-h] or [--help] as first token, [run] prints
    the help and returns 0; with [-v] or [--version] as first token it
    prints the version and returns 0.  The "before" hooks have been
    called, but nothing is parsed, no handler is called and no "after" or
    "error" hook is: the tokens that follow are not looked at. *)
Theorem run_help_and_version (cli : CLI.t)
    (impl : nat -> Context.t -> result value) (args : list string) :
  Forall (fun h => h (CLI.BeforeArgs args) = None) (CLI.before cli) ->
  (args = [] \/ (exists a0 rest, args = a0 :: rest /\
                                 Str.mem a0 ["-h"; "--help"] = true) ->
   CLI.run cli impl args
   = (CLI.all_fired "before" 0 (CLI.before cli) (CLI.BeforeArgs args)
      ++ [CLI.PrintHelp], Ok 0%Z)) /\
  ((exists a0 rest, args = a0 :: rest /\
                    Str.mem a0 ["-v"; "--version"] = true) ->
   CLI.run cli impl args
   = (CLI.all_fired "before" 0 (CLI.before cli) (CLI.BeforeArgs args)
      ++ [CLI.PrintVersion], Ok 0%Z)).
Proof.
  intros Hb. unfold CLI.run. rewrite (fire_all_return _ _ _ _ Hb).
  cbn [CLI.io_bind]. split.
  - intros [->|(a0 & rest & -> & Hh)]; [reflexivity|].
    unfold CLI.dispatch. by rewrite Hh.
  - intros (a0 & rest & -> & Hv). unfold CLI.dispatch.
    destruct (Str.mem a0 ["-h"; "--help"]) eqn:Hh.
    + exfalso. revert Hh Hv. unfold Str.mem. simpl.
      destruct (String.eqb_spec a0 "-h") as [->|_]; [discriminate|].
      destruct (String.eqb_spec a0 "--help") as [->|_]; discriminate.
    + by rewrite Hv.
Qed.

(** [run(["--help", "--count", "x"])] on an application with hooks. *)
Lemma run_help_and_version_witness :
  Forall (fun h => h (CLI.BeforeArgs ["--help"; "--count"; "x"]) = None)
    (CLI.before Examples.app_after) /\
  CLI.run Examples.app_after Examples.impl ["--help"; "--count"; "x"]
  = ([CLI.PrintHelp], Ok 0%Z).
Proof.
  assert (Hb : Forall (fun h => h (CLI.BeforeArgs ["--help"; "--count"; "x"]) = None)
                 (CLI.before Examples.app_after)) by constructor.
  split; [exact Hb|].
  refine (proj1 (run_help_and_version Examples.app_after Examples.impl
                   ["--help"; "--count"; "x"] Hb) _).
  right. by exists "--help", ["--count"; "x"].
Defined.

(** A run in which nothing raises: the "before" hooks are called with the
    tokens, the stream is parsed, the handler of the resolved command is
    called with the context, the "after" hooks are called with the
    context and the result, and [run] returns the result when it is an
    integer (a boolean counts as 0 or 1) and 0 otherwise. *)
Theorem run_returns_the_status_of_the_handler (cli : CLI.t)
    (impl : nat -> Context.t -> result value) (a0 : string) (rest : list string)
    (ctx : Context.t) (cmd : Command.t) (trc : list CLI.event) (res : value) :
  Forall (fun h => h (CLI.BeforeArgs (a0 :: rest)) = None) (CLI.before cli) ->
  Str.mem a0 ["-h"; "--help"] = false ->
  Str.mem a0 ["-v"; "--version"] = false ->
  Parser.parse (CLI.root cli) (a0 :: rest) = Ok ctx ->
  Context.command ctx = Some cmd ->
  CLI.call impl (Command.handler cmd) ctx = (trc, Ok res) ->
  Forall (fun h => h (CLI.AfterArgs ctx res) = None) (CLI.after cli) ->
  CLI.run cli impl (a0 :: rest)
  = (CLI.all_fired "before" 0 (CLI.before cli) (CLI.BeforeArgs (a0 :: rest))
     ++ trc ++ CLI.all_fired "after" 0 (CLI.after cli) (CLI.AfterArgs ctx res),
     Ok (match res with
         | VInt z => z
         | VBool true => 1%Z
         | _ => 0%Z
         end)).
Proof.
  intros Hb Hh Hv Hp Hc Hcall Ha. unfold CLI.run.
  rewrite (fire_all_return _ _ _ _ Hb). cbn [CLI.io_bind].
  rewrite (dispatch_calls_handler _ _ _ _ _ _ Hh Hv Hp Hc), Hcall.
  cbn [CLI.io_bind]. rewrite (fire_all_return _ _ _ _ Ha).
  cbn [CLI.io_bind CLI.ret CLI.catch]. rewrite app_nil_r.
  by destruct res as [|[]| | | |].
Qed.

(** When the handler raises, no "after" hook is called: the "error" hooks
    are called with the exception, it is printed, and [run] returns 1. *)
Theorem run_handler_exception_gives_1 (cli : CLI.t)
    (impl : nat -> Context.t -> result value) (a0 : string) (rest : list string)
    (ctx : Context.t) (cmd : Command.t) (trc : list CLI.event) (e : exn) :
  Forall (fun h => h (CLI.BeforeArgs (a0 :: rest)) = None) (CLI.before cli) ->
  Str.mem a0 ["-h"; "--help"] = false ->
  Str.mem a0 ["-v"; "--version"] = false ->
  Parser.parse (CLI.root cli) (a0 :: rest) = Ok ctx ->
  Context.command ctx = Some cmd ->
  CLI.call impl (Command.handler cmd) ctx = (trc, Raise e) ->
  Forall (fun h => h (CLI.ErrorArgs e) = None) (CLI.error cli) ->
  CLI.run cli impl (a0 :: rest)
  = (CLI.all_fired "before" 0 (CLI.before cli) (CLI.BeforeArgs (a0 :: rest))
     ++ trc ++ CLI.all_fired "error" 0 (CLI.error cli) (CLI.ErrorArgs e)
     ++ [CLI.PrintError e],
     Ok 1%Z).
Proof.
  intros Hb Hh Hv Hp Hc Hcall He. unfold CLI.run.
  rewrite (fire_all_return _ _ _ _ Hb). cbn [CLI.io_bind].
  rewrite (dispatch_calls_handler _ _ _ _ _ _ Hh Hv Hp Hc), Hcall.
  cbn [CLI.io_bind CLI.catch]. rewrite (fire_all_return _ _ _ _ He).
  cbn [CLI.io_bind CLI.emit CLI.ret]. by rewrite app_nil_r.
Qed.

(** When the parse raises, no handler and no "after" hook is called: the
    "error" hooks are called with the exception, it is printed, and [run]
    returns 1. *)
Theorem run_parse_exception_gives_1 (cli : CLI.t)
    (impl : nat -> Context.t -> result value) (a0 : string) (rest : list string)
    (e : exn) :
  Forall (fun h => h (CLI.BeforeArgs (a0 :: rest)) = None) (CLI.before cli) ->
  Str.mem a0 ["-h"; "--help"] = false ->
  Str.mem a0 ["-v"; "--version"] = false ->
  Parser.parse (CLI.root cli) (a0 :: rest) = Raise e ->
  Forall (fun h => h (CLI.ErrorArgs e) = None) (CLI.error cli) ->
  CLI.run cli impl (a0 :: rest)
  = (CLI.all_fired "before" 0 (CLI.before cli) (CLI.BeforeArgs (a0 :: rest))
     ++ CLI.all_fired "error" 0 (CLI.error cli) (CLI.ErrorArgs e)
     ++ [CLI.PrintError e],
     Ok 1%Z).
Proof.
  intros Hb Hh Hv Hp He. unfold CLI.run.
  rewrite (fire_all_return _ _ _ _ Hb). cbn [CLI.io_bind].
  unfold CLI.dispatch. rewrite Hh, Hv, Hp.
  cbn [CLI.io_bind CLI.catch]. rewrite (fire_all_return _ _ _ _ He).
  cbn [CLI.io_bind CLI.emit CLI.ret]. by rewrite app_nil_r.
Qed.

(** A command line that names no command: for an application built by
    registration, when the first token asks neither for help nor for the
    version and no positional token is the name of a top-level command,
    the default handler of the root is called; the help is printed and
    [run] returns 0, as if help had been asked for.  An unknown command is
    no error. *)
Theorem run_unknown_command_prints_help (cli : CLI.t)
    (impl : nat -> Context.t -> result value) (a0 : string) (rest : list string) :
  Registered.built cli ->
  Forall (fun h => h (CLI.BeforeArgs (a0 :: rest)) = None) (CLI.before cli) ->
  Forall (fun h => h (CLI.AfterArgs (Context.mk ∅ ∅ None (Some (CLI.root cli)))
                        (VInt 0)) = None) (CLI.after cli) ->
  Str.mem a0 ["-h"; "--help"] = false ->
  Str.mem a0 ["-v"; "--version"] = false ->
  Forall (fun t => Dict.get t (Command.subcommands (CLI.root cli)) = None)
    (Positional.positionals (CLI.root cli) (a0 :: rest)) ->
  CLI.run cli impl (a0 :: rest)
  = (CLI.all_fired "before" 0 (CLI.before cli) (CLI.BeforeArgs (a0 :: rest))
     ++ [CLI.Called DefaultHandler (Context.mk ∅ ∅ None (Some (CLI.root cli)));
         CLI.PrintHelp]
     ++ CLI.all_fired "after" 0 (CLI.after cli)
          (CLI.AfterArgs (Context.mk ∅ ∅ None (Some (CLI.root cli))) (VInt 0)),
     Ok 0%Z).
Proof.
  intros Hbuilt Hb Ha Hh Hv Hpos.
  destruct (built_root cli Hbuilt) as (Hd & Ho & Hg & _).
  pose proof (parse_without_declarations (CLI.root cli) (a0 :: rest) Ho Hg Hpos)
    as Hp.
  unfold CLI.run. rewrite (fire_all_return _ _ _ _ Hb). cbn [CLI.io_bind].
  rewrite (dispatch_calls_handler _ _ _ _ _ (CLI.root cli) Hh Hv Hp eq_refl).
  rewrite Hd. cbn [CLI.call CLI.io_bind CLI.emit CLI.ret app].
  rewrite (fire_all_return _ _ _ _ Ha).
  cbn [CLI.io_bind CLI.ret CLI.catch CLI.status app]. by rewrite app_nil_r.
Qed.

Lemma run_returns_the_status_of_the_handler_witness :
  Parser.parse (CLI.root Examples.app) ["greet"] = Ok Examples.greet_ctx /\
  CLI.run Examples.app Examples.impl ["greet"]
  = ([CLI.Called (Fn 1) Examples.greet_ctx], Ok 0%Z).
Proof.
  split; [reflexivity|].
  refine (run_returns_the_status_of_the_handler Examples.app Examples.impl
            "greet" [] Examples.greet_ctx
            (Command.mk "greet" (Fn 1) "Greet someone" [] [] [])
            [CLI.Called (Fn 1) Examples.greet_ctx] (VInt 0)
            _ eq_refl eq_refl eq_refl eq_refl eq_refl _); constructor.
Defined.

Lemma run_handler_exception_gives_1_witness :
  CLI.call Registered.failing_impl (Fn 1) Examples.greet_ctx
  = ([CLI.Called (Fn 1) Examples.greet_ctx], Raise (RuntimeError "down")) /\
  CLI.run Examples.app_after Registered.failing_impl ["greet"]
  = ([CLI.Called (Fn 1) Examples.greet_ctx;
      CLI.Fired "error" 0 (CLI.ErrorArgs (RuntimeError "down"));
      CLI.PrintError (RuntimeError "down")],
     Ok 1%Z).
Proof.
  split; [reflexivity|].
  refine (run_handler_exception_gives_1 Examples.app_after Registered.failing_impl
            "greet" [] Examples.greet_ctx
            (Command.mk "greet" (Fn 1) "Greet someone" [] [] [])
            [CLI.Called (Fn 1) Examples.greet_ctx] (RuntimeError "down")
            _ eq_refl eq_refl eq_refl eq_refl eq_refl _); repeat constructor.
Defined.

Lemma run_parse_exception_gives_1_witness :
  Parser.parse (CLI.root Examples.app_options) ["greet"; "--count"; "x"]
  = Raise (ValueError "int" "x") /\
  CLI.run Examples.app_options Examples.impl ["greet"; "--count"; "x"]
  = ([CLI.PrintError (ValueError "int" "x")], Ok 1%Z).
Proof.
  split; [reflexivity|].
  refine (run_parse_exception_gives_1 Examples.app_options Examples.impl
            "greet" ["--count"; "x"] (ValueError "int" "x")
            _ eq_refl eq_refl eq_refl _); constructor.
Defined.

Lemma run_unknown_command_prints_help_witness :
  Registered.built Registered.example_app /\
  Positional.positionals (CLI.root Registered.example_app) ["nope"; "--x"]
  = ["nope"] /\
  CLI.run Registered.example_app Examples.impl ["nope"; "--x"]
  = ([CLI.Called DefaultHandler
        (Context.mk ∅ ∅ None (Some (CLI.root Registered.example_app)));
      CLI.PrintHelp],
     Ok 0%Z).
Proof.
  split; [exact example_app_built|]. split; [reflexivity|].
  refine (run_unknown_command_prints_help Registered.example_app Examples.impl
            "nope" ["--x"] example_app_built _ _ eq_refl eq_refl _);
    repeat constructor.
Defined.

End Running.
